(** * code-reviewer: the diff parser, the agent pipeline and the report extractor

    A shallow embedding of the TypeScript sources

      - [src/parsers/git-diff-parser.ts]   (module [GitDiffParser])
      - [src/agents/base-agent.ts]         (module [BaseAgent])
      - [src/agents/*-agent.ts], [src/pipeline/executor.ts]
                                           (module [Pipeline])
      - [src/commands/extract.ts]          (module [Extract])

    followed by the properties proved about them.

    Conventions of the embedding.

    - A JavaScript string is the list of its UTF-16 code units, each an [N].
      String literals of the source are written [lit "..."].
    - A line number is read from the text and can be any digit string: it
      is a [number], an integer that an IEEE double holds or [Infinity],
      with the rounding of [parseInt] and of [++].
    - A count of lines, findings or files is the [N] it denotes, and clock
      readings and their differences are in [Z]: these stay far below
      2^53, where the doubles of the code are exact.
    - [undefined] in an optional field is [None].
    - [console.log], [console.warn] and [console.error] are not modelled. *)

From Stdlib Require Import String Ascii NArith ZArith Lia DecimalString Sorted.
From stdpp Require Import base tactics option list numbers.

Set Default Proof Using "Type".
Local Open Scope N_scope.

(** ** JavaScript strings and the regular-expression character classes *)

Abbreviation jsstring := (list N).

Module JS.

Fixpoint lit (s : string) : jsstring :=
  match s with
  | EmptyString => []
  | String c s' => N_of_ascii c :: lit s'
  end.

(** A literal in which each apostrophe stands for a double quote. *)
Definition litq (s : string) : jsstring :=
  map (fun c => if c =? 39 then 34 else c) (lit s).

(** The line feed, [lit] of the one-character string of code 10. *)
Definition LF : N := 10.

(** ECMAScript LineTerminator: LF, CR, U+2028, U+2029. *)
Definition isLineTerminator (c : N) : bool :=
  (c =? 10) || (c =? 13) || (c =? 8232) || (c =? 8233).

(** The regular-expression atom [.] (no [s] flag). *)
Definition isDot (c : N) : bool := negb (isLineTerminator c).

(** The class [\d]. *)
Definition isDigit (c : N) : bool := (48 <=? c) && (c <=? 57).

(** The class [\s], which is also what [String.prototype.trim] strips:
    WhiteSpace and LineTerminator code points. *)
Definition isWhiteSpace (c : N) : bool :=
  (c =? 9) || (c =? 10) || (c =? 11) || (c =? 12) || (c =? 13) || (c =? 32)
  || (c =? 160) || (c =? 5760) || ((8192 <=? c) && (c <=? 8202))
  || (c =? 8232) || (c =? 8233) || (c =? 8239) || (c =? 8287)
  || (c =? 12288) || (c =? 65279).

Definition truthy (s : jsstring) : bool :=
  match s with [] => false | _ => true end.

(** [stripPrefix p s] is [Some rest] when [s = p ++ rest]. *)
Fixpoint stripPrefix (p s : jsstring) : option jsstring :=
  match p, s with
  | [], _ => Some s
  | _ :: _, [] => None
  | a :: p', b :: s' => if a =? b then stripPrefix p' s' else None
  end.

(** [s.startsWith(p)] *)
Definition startsWith (p s : jsstring) : bool :=
  match stripPrefix p s with Some _ => true | None => false end.

(** [s.endsWith(p)] *)
Definition endsWith (p s : jsstring) : bool :=
  startsWith (rev p) (rev s).

(** [s.includes(p)] *)
Fixpoint includes (p s : jsstring) : bool :=
  startsWith p s ||
  match s with
  | [] => false
  | _ :: s' => includes p s'
  end.

(** [s.split("\n")]: never empty, the empty string gives one empty piece. *)
Fixpoint split_newline (s : jsstring) : list jsstring :=
  match s with
  | [] => [[]]
  | c :: s' =>
      if c =? LF then [] :: split_newline s'
      else match split_newline s' with
           | l :: ls => (c :: l) :: ls
           | [] => [[c]]
           end
  end.

(** [pieces.join("\n")] *)
Fixpoint join_newline (pieces : list jsstring) : jsstring :=
  match pieces with
  | [] => []
  | [p] => p
  | p :: ps => p ++ LF :: join_newline ps
  end.

Fixpoint takeWhile (f : N -> bool) (s : jsstring) : jsstring :=
  match s with
  | c :: s' => if f c then c :: takeWhile f s' else []
  | [] => []
  end.

Fixpoint dropWhile (f : N -> bool) (s : jsstring) : jsstring :=
  match s with
  | c :: s' => if f c then dropWhile f s' else s
  | [] => []
  end.

(** [s.trim()] *)
Definition trim (s : jsstring) : jsstring :=
  rev (dropWhile isWhiteSpace (rev (dropWhile isWhiteSpace s))).

(** *** Numbers

    A JavaScript number is an IEEE 754 double.  The line numbers of the
    code are read from digit strings and incremented, so they are
    non-negative integers that a double holds, or [Infinity], which a very
    long digit string gives. *)
Inductive number :=
| Finite (n : N)
| Infinity.

Coercion Finite : N >-> number.

(** Up to [2^53] every integer is a double; above, only every second,
    then every fourth, and so on. *)
Definition exactLimit : N := 9007199254740992.

(** The double nearest to an integer, the one with the even significand
    when two are equally near (round to nearest, ties to even).  From
    [2^53] on [n] has [53 + e] bits: [q] is its leading 53 bits and [r]
    the [e] bits that are dropped.  What reaches [2^1024] is [Infinity]. *)
Definition roundToDouble (n : N) : number :=
  if n <? exactLimit then Finite n
  else
    let e := N.log2 n - 52 in
    let q := n / 2 ^ e in
    let r := n mod 2 ^ e in
    let half := 2 ^ (e - 1) in
    let q' := if (half <? r) || ((r =? half) && N.odd q) then q + 1 else q in
    let v := q' * 2 ^ e in
    if v <? 2 ^ 1024 then Finite v else Infinity.

(** [x++] and [x + 1] on such a number: the sum, rounded. *)
Definition increment (x : number) : number :=
  match x with
  | Finite n => roundToDouble (n + 1)
  | Infinity => Infinity
  end.

(** [a < b] *)
Definition ltNumber (a b : number) : Prop :=
  match a, b with
  | Finite x, Finite y => x < y
  | Finite _, Infinity => True
  | Infinity, _ => False
  end.

(** The integer a decimal numeral stands for. *)
Definition decimalValue (ds : jsstring) : N :=
  fold_left (fun acc c => 10 * acc + (c - 48)) ds 0.

(** [parseInt(ds, 10)] (and [parseInt(ds)]) on a capture of [\d+]: the
    number for the value of the decimal numeral.  The source applies
    [parseInt] to such captures only.  The language lets an engine read
    the digits after the twentieth as zeros; that changes nothing for
    values up to [2^53], which have sixteen digits at most. *)
Definition parseInt (ds : jsstring) : number :=
  roundToDouble (decimalValue ds).

(** The decimal rendering of a number in a template literal. *)
Definition numberToString (n : N) : jsstring :=
  lit (NilEmpty.string_of_uint (N.to_uint n)).

(** The lazy group of a pattern [(.+?)sep(.+)$]: [acc] is what [.+?] has
    taken so far (never empty), [s] is what is left.  The first position
    at which [sep] matches and leaves something for [(.+)] wins. *)
Fixpoint lazySplit (sep acc s : jsstring) : option (jsstring * jsstring) :=
  match s with
  | [] => None
  | c :: s' =>
      match stripPrefix sep s with
      | Some (d :: rest) => Some (acc, d :: rest)
      | _ => lazySplit sep (acc ++ [c]) s'
      end
  end.

(** The pattern [^prefix(.+?)sep(.+)$] without the [m] flag on a whole
    string: both groups are made of [.] characters only and [sep] holds no
    line terminator, so the string after [prefix] must be free of them. *)
Definition matchTwoGroups (prefix sep s : jsstring)
  : option (jsstring * jsstring) :=
  match stripPrefix prefix s with
  | Some (c :: rest) =>
      if forallb isDot (c :: rest) then lazySplit sep [c] rest else None
  | _ => None
  end.

(** An unanchored search: the leftmost position at which [m] matches. *)
Fixpoint search {A : Type} (m : jsstring -> option A) (s : jsstring)
  : option A :=
  match m s with
  | Some r => Some r
  | None => match s with
            | [] => None
            | _ :: s' => search m s'
            end
  end.

End JS.

Import JS.

(** ** [src/parsers/types.ts] and [src/parsers/git-diff-parser.ts]

    [parseDiff] and [parseDiffFile] obtain a diff text, from git or from a
    file, and hand it to [processDiff]; the embedding starts there. *)

Module GitDiffParser.

Inductive ChangeType := add | delete | context.

Record Change := {
  type : ChangeType;
  lineNumber : number;
  content : jsstring;
}.

Inductive FileStatus := added | modified | deleted | renamed.

Record FileDiff := {
  path : jsstring;
  oldPath : option jsstring;
  status : FileStatus;
  additions : N;
  deletions : N;
  changes : list Change;
}.

Record ParsedDiff := {
  files : list FileDiff;
  totalAdditions : N;
  totalDeletions : N;
  summary : jsstring;
}.

(** The statistical summary of simple-git ([DiffResult]), as far as
    [processDiff] reads it. *)
Record DiffResult := {
  changed : N;
  insertions : N;
  dr_deletions : N;
}.

Definition supportedExtensions : list jsstring :=
  [lit ".ts"; lit ".tsx"; lit ".js"; lit ".jsx"].

(** [isSupportedFile] *)
Definition isSupportedFile (filePath : jsstring) : bool :=
  existsb (fun ext => endsWith ext filePath) supportedExtensions.

(** [lines[0]?.match(/^a\/(.+?) b\/(.+?)$/)]: the two captures.  With the
    end anchor the second lazy group has to take the rest of the line. *)
Definition filePathMatch (line0 : jsstring) : option (jsstring * jsstring) :=
  matchTwoGroups (lit "a/") (lit " b/") line0.

(** The piece [\d+,?\d*] of the hunk pattern, followed in the pattern by
    a literal space: the first digit run and what is left after the piece.
    Both runs are taken whole: a shorter run would leave a digit or a comma
    where the pattern continues with a space. *)
Definition rangeSpec (s : jsstring) : option (jsstring * jsstring) :=
  match takeWhile isDigit s with
  | [] => None
  | d :: ds =>
      let rest := dropWhile isDigit s in
      match rest with
      | 44 :: rest' => Some (d :: ds, dropWhile isDigit rest')
      | _ => Some (d :: ds, rest)
      end
  end.

(** [line.match(/^@@ -\d+,?\d* \+(\d+),?\d* @@/)]: the capture. *)
Definition hunkMatch (line : jsstring) : option jsstring :=
  s1 ← stripPrefix (lit "@@ -") line;
  '(_, s2) ← rangeSpec s1;
  s3 ← stripPrefix (lit " +") s2;
  '(newStart, s4) ← rangeSpec s3;
  _ ← stripPrefix (lit " @@") s4;
  Some newStart.

(** The variables of the loop of [parseFileDiff]. *)
Record LoopState := {
  ls_changes : list Change;
  ls_additions : N;
  ls_deletions : N;
  currentLineNumber : number;
}.

Definition initialState : LoopState :=
  {| ls_changes := []; ls_additions := 0; ls_deletions := 0;
     currentLineNumber := 0 |}.

(** One iteration of [for (let i = 0; i < lines.length; i++)]. *)
Definition lineStep (st : LoopState) (line : jsstring) : LoopState :=
  match hunkMatch line with
  | Some newStart =>
      {| ls_changes := ls_changes st;
         ls_additions := ls_additions st;
         ls_deletions := ls_deletions st;
         currentLineNumber := parseInt newStart |}
  | None =>
      if startsWith (lit "+") line && negb (startsWith (lit "+++") line) then
        {| ls_changes := ls_changes st ++
             [{| type := add; lineNumber := currentLineNumber st;
                 content := drop 1 line |}];
           ls_additions := ls_additions st + 1;
           ls_deletions := ls_deletions st;
           currentLineNumber := increment (currentLineNumber st) |}
      else if startsWith (lit "-") line && negb (startsWith (lit "---") line) then
        {| ls_changes := ls_changes st ++
             [{| type := delete; lineNumber := currentLineNumber st;
                 content := drop 1 line |}];
           ls_additions := ls_additions st;
           ls_deletions := ls_deletions st + 1;
           currentLineNumber := currentLineNumber st |}
      else if startsWith (lit " ") line then
        {| ls_changes := ls_changes st ++
             [{| type := context; lineNumber := currentLineNumber st;
                 content := drop 1 line |}];
           ls_additions := ls_additions st;
           ls_deletions := ls_deletions st;
           currentLineNumber := increment (currentLineNumber st) |}
      else st
  end.

(** The whole loop, from any state. *)
Definition parseLines (st : LoopState) (lines : list jsstring) : LoopState :=
  fold_left lineStep lines st.

(** [parseFileDiff]; [None] is the [null] result. *)
Definition parseFileDiff (diffContent : jsstring) : option FileDiff :=
  let lines := split_newline diffContent in
  match filePathMatch (default [] (head lines)) with
  | None => None
  | Some (oldP, newP) =>
      let status :=
        if includes (lit "new file mode") diffContent then added
        else if includes (lit "deleted file mode") diffContent then deleted
        else if negb (bool_decide (oldP = newP)) then renamed
        else modified in
      let st := parseLines initialState lines in
      Some {| path := newP;
              oldPath := if bool_decide (oldP = newP) then None else Some oldP;
              status := status;
              additions := ls_additions st;
              deletions := ls_deletions st;
              changes := ls_changes st |}
  end.

(** [diffContent.split(/^diff --git /m)]: with the [m] flag the anchor
    holds at the start of the text and after every line terminator.
    [skip] counts the code units of a separator still to be passed; [bol]
    tells whether the anchor holds here. *)
Fixpoint splitFileDiffs (skip : nat) (bol : bool) (s : jsstring)
  : list jsstring :=
  match s with
  | [] => [[]]
  | c :: s' =>
      match skip with
      | S k => splitFileDiffs k false s'
      | O =>
          if bol && startsWith (lit "diff --git ") s
          then [] :: splitFileDiffs 10 false s'
          else match splitFileDiffs 0 (isLineTerminator c) s' with
               | p :: ps => (c :: p) :: ps
               | [] => [[c]]
               end
      end
  end.

(** The accumulators of the loop of [processDiff]. *)
Record Totals := {
  t_files : list FileDiff;
  t_additions : N;
  t_deletions : N;
}.

(** One iteration of [for (const fileDiff of fileDiffs)]. *)
Definition fileStep (acc : Totals) (fileDiff : jsstring) : Totals :=
  match parseFileDiff fileDiff with
  | None => acc
  | Some fileDiffData =>
      if negb (isSupportedFile (path fileDiffData)) then acc
      else {| t_files := t_files acc ++ [fileDiffData];
              t_additions := t_additions acc + additions fileDiffData;
              t_deletions := t_deletions acc + deletions fileDiffData |}
  end.

(** [processDiff] *)
Definition processDiff (diffContent : jsstring) (summary : option DiffResult)
  : ParsedDiff :=
  let fileDiffs := List.filter truthy (splitFileDiffs 0 true diffContent) in
  let acc := fold_left fileStep fileDiffs
               {| t_files := []; t_additions := 0; t_deletions := 0 |} in
  let summaryText :=
    match summary with
    | Some s =>
        numberToString (changed s) ++ lit " files changed, " ++
        numberToString (insertions s) ++ lit " insertions(+), " ++
        numberToString (dr_deletions s) ++ lit " deletions(-)"
    | None =>
        numberToString (N.of_nat (length (t_files acc))) ++
        lit " files changed, " ++
        numberToString (t_additions acc) ++ lit " insertions(+), " ++
        numberToString (t_deletions acc) ++ lit " deletions(-)"
    end in
  {| files := t_files acc;
     totalAdditions := t_additions acc;
     totalDeletions := t_deletions acc;
     summary := summaryText |}.

End GitDiffParser.

(** ** [src/agents/types.ts] *)

Module Agents.

(** [AgentFinding].  The TypeScript unions of [type] and [severity] are
    erased at run time, where both are arbitrary strings. *)
Record AgentFinding := {
  type : jsstring;
  severity : jsstring;
  category : jsstring;
  message : jsstring;
  file : jsstring;
  line : option Z;
  suggestion : option jsstring;
  code : option jsstring;
}.

Record AgentContext := {
  diff : GitDiffParser.ParsedDiff;
  previousFindings : option (list AgentFinding);
}.

Record TokenUsage := {
  promptTokens : Z;
  completionTokens : Z;
  totalTokens : Z;
}.

Record AgentResult := {
  agentName : jsstring;
  findings : list AgentFinding;
  executionTime : Z;
  tokenUsage : option TokenUsage;
}.

End Agents.

(** ** [src/agents/base-agent.ts]: [parseFindings] and [isValidFinding] *)

Module BaseAgent.

(** The values [JSON.parse] can return.  A number keeps its literal: the
    code never computes with it. *)
#[warnings="-register-all"]
Inductive json :=
| JNull
| JBool (b : bool)
| JNumber (literal : jsstring)
| JString (s : jsstring)
| JArray (items : list json)
| JObject (members : list (jsstring * json)).

(** *** The built-in [JSON.parse], following the JSON grammar *)

Definition isJsonWhiteSpace (c : N) : bool :=
  (c =? 32) || (c =? 9) || (c =? 10) || (c =? 13).

Definition skipWs (s : jsstring) : jsstring := dropWhile isJsonWhiteSpace s.

Definition hexValue (c : N) : option N :=
  if isDigit c then Some (c - 48)
  else if (97 <=? c) && (c <=? 102) then Some (c - 87)
  else if (65 <=? c) && (c <=? 70) then Some (c - 55)
  else None.

(** The escapes of one character: quote, backslash, slash, b, f, n, r, t. *)
Definition simpleEscape (c : N) : option N :=
  if c =? 34 then Some 34
  else if c =? 92 then Some 92
  else if c =? 47 then Some 47
  else if c =? 98 then Some 8
  else if c =? 102 then Some 12
  else if c =? 110 then Some 10
  else if c =? 114 then Some 13
  else if c =? 116 then Some 9
  else None.

(** The characters of a string literal after its opening quote. *)
Fixpoint parseStringBody (s : jsstring) : option (jsstring * jsstring) :=
  match s with
  | [] => None
  | 34 :: rest => Some ([], rest)
  | 92 :: 117 :: h1 :: h2 :: h3 :: h4 :: rest =>
      a ← hexValue h1; b ← hexValue h2; c ← hexValue h3; d ← hexValue h4;
      '(str, r) ← parseStringBody rest;
      Some (((a * 16 + b) * 16 + c) * 16 + d :: str, r)
  | 92 :: e :: rest =>
      c ← simpleEscape e;
      '(str, r) ← parseStringBody rest;
      Some (c :: str, r)
  | c :: rest =>
      if (c <? 32) || (c =? 92) then None
      else '(str, r) ← parseStringBody rest; Some (c :: str, r)
  end.

Definition digits1 (s : jsstring) : option (jsstring * jsstring) :=
  match takeWhile isDigit s with
  | [] => None
  | ds => Some (ds, dropWhile isDigit s)
  end.

(** A number literal: an optional minus, an integer part without leading
    zero, an optional fraction, an optional exponent. *)
Definition parseNumber (s : jsstring) : option (jsstring * jsstring) :=
  let '(sign, s1) := match s with 45 :: r => ([45], r) | _ => ([], s) end in
  '(int, s2) ← match s1 with
               | 48 :: r => Some ([48], r)
               | _ => digits1 s1
               end;
  '(frac, s3) ← match s2 with
                | 46 :: r => '(ds, r') ← digits1 r; Some (46 :: ds, r')
                | _ => Some ([], s2)
                end;
  '(exp, s4) ← match s3 with
               | e :: r =>
                   if (e =? 101) || (e =? 69) then
                     let '(sg, r1) := match r with
                                      | 43 :: r' => ([43], r')
                                      | 45 :: r' => ([45], r')
                                      | _ => ([], r)
                                      end in
                     '(ds, r2) ← digits1 r1; Some (e :: sg ++ ds, r2)
                   else Some ([], s3)
               | [] => Some ([], s3)
               end;
  Some (sign ++ int ++ frac ++ exp, s4).

Fixpoint parseValue (fuel : nat) (s : jsstring) : option (json * jsstring) :=
  match fuel with
  | O => None
  | S fuel' =>
      match skipWs s with
      | 110 :: 117 :: 108 :: 108 :: r => Some (JNull, r)
      | 116 :: 114 :: 117 :: 101 :: r => Some (JBool true, r)
      | 102 :: 97 :: 108 :: 115 :: 101 :: r => Some (JBool false, r)
      | 34 :: r => '(str, r') ← parseStringBody r; Some (JString str, r')
      | 91 :: r =>
          match skipWs r with
          | 93 :: r' => Some (JArray [], r')
          | _ => '(items, r') ← parseElements fuel' r; Some (JArray items, r')
          end
      | 123 :: r =>
          match skipWs r with
          | 125 :: r' => Some (JObject [], r')
          | _ => '(ms, r') ← parseMembers fuel' r; Some (JObject ms, r')
          end
      | s' => '(lit, r) ← parseNumber s'; Some (JNumber lit, r)
      end
  end
with parseElements (fuel : nat) (s : jsstring)
  : option (list json * jsstring) :=
  match fuel with
  | O => None
  | S fuel' =>
      '(v, r) ← parseValue fuel' s;
      match skipWs r with
      | 44 :: r' => '(vs, r'') ← parseElements fuel' r'; Some (v :: vs, r'')
      | 93 :: r' => Some ([v], r')
      | _ => None
      end
  end
with parseMembers (fuel : nat) (s : jsstring)
  : option (list (jsstring * json) * jsstring) :=
  match fuel with
  | O => None
  | S fuel' =>
      match skipWs s with
      | 34 :: r =>
          '(key, r1) ← parseStringBody r;
          match skipWs r1 with
          | 58 :: r2 =>
              '(v, r3) ← parseValue fuel' r2;
              match skipWs r3 with
              | 44 :: r4 =>
                  '(ms, r5) ← parseMembers fuel' r4; Some ((key, v) :: ms, r5)
              | 125 :: r4 => Some ([(key, v)], r4)
              | _ => None
              end
          | _ => None
          end
      | _ => None
      end
  end.

(** [JSON.parse(text)]; [None] is the [SyntaxError].  Every value and every
    element or member takes at least one code unit, so twice the length of
    the text bounds the depth of the calls. *)
Definition JSON_parse (text : jsstring) : option json :=
  match parseValue (2 * length text + 2) text with
  | Some (v, r) => match skipWs r with [] => Some v | _ => None end
  | None => None
  end.

(** *** Property access, [typeof] and truthiness on parsed values *)

(** [o[key]] on the members of a parsed object: a repeated key keeps its
    last value. *)
Fixpoint lookupMember (key : jsstring) (ms : list (jsstring * json))
  : option json :=
  match ms with
  | [] => None
  | (k, v) :: ms' =>
      match lookupMember key ms' with
      | Some v' => Some v'
      | None => if bool_decide (k = key) then Some v else None
      end
  end.

(** [finding.key] for the five names read by [isValidFinding], none of
    which is on [Object.prototype] or [Array.prototype]; [None] is
    [undefined]. *)
Definition getProp (finding : json) (key : jsstring) : option json :=
  match finding with
  | JObject ms => lookupMember key ms
  | _ => None
  end.

(** [typeof v === "string"] for the result of a property access. *)
Definition typeofIsString (v : option json) : bool :=
  match v with Some (JString _) => true | _ => false end.

(** [typeof v === "object"] *)
Definition typeofIsObject (v : json) : bool :=
  match v with JNull | JArray _ | JObject _ => true | _ => false end.

(** Truthiness of a parsed value.  A number is taken to be falsy when its
    mantissa has no digit other than 0; a number that underflows to zero
    is not told apart, which changes nothing below: a number fails the
    [typeof] test that follows in [isValidFinding]. *)
Definition isTruthy (v : json) : bool :=
  match v with
  | JNull => false
  | JBool b => b
  | JNumber l =>
      existsb (fun c => (49 <=? c) && (c <=? 57))
        (takeWhile (fun c => negb ((c =? 101) || (c =? 69))) l)
  | JString s => truthy s
  | JArray _ | JObject _ => true
  end.

(** [isValidFinding] *)
Definition isValidFinding (finding : json) : bool :=
  isTruthy finding &&
  typeofIsObject finding &&
  typeofIsString (getProp finding (lit "type")) &&
  typeofIsString (getProp finding (lit "severity")) &&
  typeofIsString (getProp finding (lit "category")) &&
  typeofIsString (getProp finding (lit "message")) &&
  typeofIsString (getProp finding (lit "file")).

(** [response.match(/\[[\s\S]*\]/)]: from the first opening bracket to the
    last closing bracket after it. *)
Definition jsonMatch (response : jsstring) : option jsstring :=
  match dropWhile (fun c => negb (c =? 91)) response with
  | [] => None
  | fromOpen =>
      match dropWhile (fun c => negb (c =? 93)) (rev fromOpen) with
      | [] => None
      | upToClose => Some (rev upToClose)
      end
  end.

(** [parseFindings]: the findings are the parsed objects themselves. *)
Definition parseFindings (response : jsstring) : list json :=
  match jsonMatch response with
  | None => []
  | Some text =>
      match JSON_parse text with
      | None => []                       (* thrown and caught *)
      | Some (JArray findings) => List.filter isValidFinding findings
      | Some _ => []                     (* !Array.isArray(findings) *)
      end
  end.

End BaseAgent.

(** ** [src/reporters/types.ts], [src/pipeline/types.ts],
       [src/pipeline/executor.ts] and the [analyze] of the three agents *)

Module Pipeline.

Import Agents.

(** An object with one entry per agent: [config.agents], [results],
    [summary.byAgent], [tokenUsage.byAgent]. *)
Record ByAgent (A : Type) := {
  codeReview : A;
  security : A;
  performance : A;
}.
Arguments codeReview {A} _.
Arguments security {A} _.
Arguments performance {A} _.

Record LLMConfig := {
  provider : jsstring;
  apiKey : jsstring;
  model : option jsstring;
}.

Record OutputConfig := {
  formats : list jsstring;
  directory : jsstring;
}.

Record PipelineConfig := {
  llm : LLMConfig;
  agents : ByAgent bool;          (* the [enabled] flags *)
  output : OutputConfig;
}.

Record ReportSummary := {
  totalFindings : N;
  critical : N;
  high : N;
  medium : N;
  low : N;
  byAgent : ByAgent N;
}.

Record ReportTokenUsage := {
  total : Z;
  tokensByAgent : ByAgent (option Z);
}.

Record Report := {
  summary : ReportSummary;
  r_codeReview : list AgentFinding;
  r_security : list AgentFinding;
  r_performance : list AgentFinding;
  generatedAt : Z;
  r_executionTime : Z;
  r_tokenUsage : option ReportTokenUsage;
}.

Record Output := {
  o_format : jsstring;
  o_path : jsstring;
}.

Record PipelineResult := {
  report : option Report;
  outputs : list Output;
  success : bool;
  error : option jsstring;
}.

(** *** What the code asks of its environment *)

(** A thrown value: an [Error] with its message, or anything else. *)
Inductive Thrown :=
| ErrorObject (message : jsstring)
| ThrownValue.

(** How a call into the environment ends. *)
Inductive Res (A : Type) :=
| Returned (a : A)
| Raised (e : Thrown).
Arguments Returned {A} _.
Arguments Raised {A} _.

Inductive Stage := CodeReview | Security | Performance.

(** What the [try] block of an agent's [analyze] computes before it builds
    its result: the merged findings and [response.usage]. *)
Record Analysis := {
  allFindings : list AgentFinding;
  usage : option TokenUsage;
}.

Inductive Reporter := MarkdownReporter | HTMLReporter.

(** The calls that leave the modelled code.
    - [Setup]: [createLLMProvider] and the three agent constructors;
    - [RunAnalysis s context]: the statements of the [try] block of the
      [analyze] of agent [s] up to its [return] (static or AST analysis,
      prompt, [llm.chat], [parseFindings], merge), run on [context], which
      they only read;
    - [Generate]: [new R().generate(report)];
    - the others are the built-ins of the same name. *)
Inductive Event : Type -> Type :=
| DateNow : Event Z
| NewDate : Event Z
| ToISOString : Event jsstring
| Setup (c : LLMConfig) : Event (Res unit)
| RunAnalysis (s : Stage) (context : AgentContext) : Event (Res Analysis)
| MkdirSync (dir : jsstring) : Event (Res unit)
| Generate (r : Reporter) (rep : Report) : Event (Res jsstring)
| PathJoin (dir filename : jsstring) : Event jsstring
| WriteFileSync (filepath content : jsstring) : Event (Res unit).

(** Programs over these calls, with [throw]. *)
Inductive Prog (A : Type) : Type :=
| Ret (a : A)
| Throw (e : Thrown)
| Vis (X : Type) (ev : Event X) (k : X -> Prog A).
Arguments Ret {A} _.
Arguments Throw {A} _.
Arguments Vis {A X} _ _.

Fixpoint bind {A B : Type} (p : Prog A) (f : A -> Prog B) : Prog B :=
  match p with
  | Ret a => f a
  | Throw e => Throw e
  | Vis ev k => Vis ev (fun x => bind (k x) f)
  end.

(** [try { p } catch (error) { h error }] *)
Fixpoint tryCatch {A : Type} (p : Prog A) (h : Thrown -> Prog A) : Prog A :=
  match p with
  | Ret a => Ret a
  | Throw e => h e
  | Vis ev k => Vis ev (fun x => tryCatch (k x) h)
  end.

#[export] Instance prog_ret : MRet Prog := @Ret.
#[export] Instance prog_bind : MBind Prog := fun A B f p => bind p f.

(** A call that cannot throw. *)
Definition perform {X : Type} (ev : Event X) : Prog X := Vis ev Ret.

(** A call that may throw. *)
Definition call {X : Type} (ev : Event (Res X)) : Prog X :=
  Vis ev (fun r => match r with
                   | Returned x => Ret x
                   | Raised e => Throw e
                   end).

(** *** The agents *)

(** [getAgentName] *)
Definition getAgentName (s : Stage) : jsstring :=
  match s with
  | CodeReview => lit "Code Review"
  | Security => lit "Security"
  | Performance => lit "Performance"
  end.

(** [analyze] of [CodeReviewAgent], [SecurityAgent] and [PerformanceAgent]:
    the three have the same frame around their [try] block. *)
Definition analyze (s : Stage) (context : AgentContext) : Prog AgentResult :=
  startTime ← perform DateNow;
  tryCatch
    (a ← call (RunAnalysis s context);
     now ← perform DateNow;
     mret {| agentName := getAgentName s;
             findings := allFindings a;
             executionTime := (now - startTime)%Z;
             tokenUsage := usage a |})
    (fun _ =>
     now ← perform DateNow;
     mret {| agentName := getAgentName s;
             findings := [];
             executionTime := (now - startTime)%Z;
             tokenUsage := None |}).

(** *** [PipelineExecutor] *)

(** [results.x?.findings || []] *)
Definition findingsOf (r : option AgentResult) : list AgentFinding :=
  match r with Some res => findings res | None => [] end.

(** [results.x?.tokenUsage?.totalTokens] *)
Definition totalTokensOf (r : option AgentResult) : option Z :=
  res ← r; u ← tokenUsage res; Some (totalTokens u).

Definition countSeverity (sev : jsstring) (l : list AgentFinding) : N :=
  N.of_nat (length (List.filter (fun f => bool_decide (severity f = sev)) l)).

(** [aggregateReport]; [now] is the value of its [new Date()]. *)
Definition aggregateReport (results : ByAgent (option AgentResult))
    (executionTime : Z) (now : Z) : Report :=
  let codeReview' := findingsOf (codeReview results) in
  let security' := findingsOf (security results) in
  let performance' := findingsOf (performance results) in
  let allFindings := codeReview' ++ security' ++ performance' in
  let summary :=
    {| totalFindings := N.of_nat (length allFindings);
       critical := countSeverity (lit "critical") allFindings;
       high := countSeverity (lit "high") allFindings;
       medium := countSeverity (lit "medium") allFindings;
       low := countSeverity (lit "low") allFindings;
       byAgent := {| codeReview := N.of_nat (length codeReview');
                     security := N.of_nat (length security');
                     performance := N.of_nat (length performance') |} |} in
  let tokenUsage :=
    {| total := (default 0 (totalTokensOf (codeReview results)) +
                 default 0 (totalTokensOf (security results)) +
                 default 0 (totalTokensOf (performance results)))%Z;
       tokensByAgent :=
         {| codeReview := totalTokensOf (codeReview results);
            security := totalTokensOf (security results);
            performance := totalTokensOf (performance results) |} |} in
  {| summary := summary;
     r_codeReview := codeReview';
     r_security := security';
     r_performance := performance';
     generatedAt := now;
     r_executionTime := executionTime;
     r_tokenUsage := if (0 <? total tokenUsage)%Z then Some tokenUsage
                     else None |}.

(** The body of [for (const format of outputConfig.formats)]; the result
    is the array [outputs] after the iteration. *)
Definition outputStep (rep : Report) (dir timestamp : jsstring)
    (outputs : list Output) (format : jsstring) : Prog (list Output) :=
  let write (content filename : jsstring) : Prog (list Output) :=
    filepath ← perform (PathJoin dir filename);
    _ ← call (WriteFileSync filepath content);
    mret (outputs ++ [{| o_format := format; o_path := filepath |}]) in
  tryCatch
    (if bool_decide (format = lit "markdown") then
       content ← call (Generate MarkdownReporter rep);
       write content (lit "code-review-" ++ timestamp ++ lit ".md")
     else if bool_decide (format = lit "html") then
       content ← call (Generate HTMLReporter rep);
       write content (lit "code-review-" ++ timestamp ++ lit ".html")
     else mret outputs)
    (fun _ => mret outputs).

Fixpoint outputLoop (rep : Report) (dir timestamp : jsstring)
    (fmts : list jsstring) (outputs : list Output) : Prog (list Output) :=
  match fmts with
  | [] => mret outputs
  | format :: rest =>
      outputs' ← outputStep rep dir timestamp outputs format;
      outputLoop rep dir timestamp rest outputs'
  end.

(** [generateOutputs] *)
Definition generateOutputs (rep : Report) (outputConfig : OutputConfig)
  : Prog (list Output) :=
  _ ← call (MkdirSync (directory outputConfig));
  iso ← perform ToISOString;
  let timestamp :=
    map (fun c => if (c =? 58) || (c =? 46) then 45 else c) iso in
  outputLoop rep (directory outputConfig) timestamp (formats outputConfig) [].

(** The three steps of [execute]: the [context] and the [results] after
    them. *)
Definition runStages (diff : GitDiffParser.ParsedDiff) (enabled : ByAgent bool)
  : Prog (ByAgent (option AgentResult)) :=
  let context := {| diff := diff; previousFindings := None |} in
  (* Step 1: Code Review *)
  '(context, r1) ←
    (if codeReview enabled then
       r ← analyze CodeReview context;
       mret ({| diff := diff; previousFindings := Some (findings r) |},
             Some r)
     else mret (context, None));
  (* Step 2: Security *)
  '(context, r2) ←
    (if security enabled then
       r ← analyze Security context;
       mret ({| diff := diff;
                previousFindings :=
                  Some (default [] (previousFindings context) ++ findings r) |},
             Some r)
     else mret (context, None));
  (* Step 3: Performance *)
  r3 ←
    (if performance enabled then
       r ← analyze Performance context; mret (Some r)
     else mret None);
  mret {| codeReview := r1; security := r2; performance := r3 |}.

(** [execute] *)
Definition execute (diff : GitDiffParser.ParsedDiff) (config : PipelineConfig)
  : Prog PipelineResult :=
  startTime ← perform DateNow;
  tryCatch
    (_ ← call (Setup (llm config));
     results ← runStages diff (agents config);
     now ← perform DateNow;
     date ← perform NewDate;
     let rep := aggregateReport results (now - startTime)%Z date in
     outs ← generateOutputs rep (output config);
     mret {| report := Some rep; outputs := outs; success := true;
             error := None |})
    (fun e =>
     mret {| report := None; outputs := []; success := false;
             error := Some match e with
                           | ErrorObject m => m
                           | ThrownValue => lit "Unknown error"
                           end |}).

(** *** Running a program against an environment *)

(** An environment answers every call and moves to its next state. *)
Record Env := {
  World : Type;
  answer : forall X : Type, Event X -> World -> X * World;
}.

(** A call with the answer it got. *)
Inductive Call :=
| Called (X : Type) (ev : Event X) (result : X).
Arguments Called {X} _ _.

(** The calls made, in order, the way the program ends, and the state the
    environment is left in. *)
Fixpoint run (env : Env) {A : Type} (p : Prog A) (w : World env)
  : list Call * Res A * World env :=
  match p with
  | Ret a => ([], Returned a, w)
  | Throw e => ([], Raised e, w)
  | Vis ev k =>
      let '(x, w1) := answer env _ ev w in
      let '(tr, r, w2) := run env (k x) w1 in
      (Called ev x :: tr, r, w2)
  end.

End Pipeline.

(** ** [src/commands/extract.ts]: [extractCheckedFindings] *)

Module Extract.

Record ExtractedFinding := {
  severity : jsstring;
  category : jsstring;
  file : jsstring;
  line : option number;
  issue : jsstring;
  suggestion : option jsstring;
  code : option jsstring;
}.

(** How a loop of the source ends in the model: normally, with the
    [TypeError] of a property read on [undefined], or with the fuel of the
    model used up. *)
Inductive outcome (A : Type) :=
| Done (a : A)
| TypeError
| OutOfFuel.
Arguments Done {A} _.
Arguments TypeError {A}.
Arguments OutOfFuel {A}.

(** The three backticks of a fence. *)
Definition fence : jsstring := [96; 96; 96].

(** [line.match(/^- \[x\] \*\*\[(.+?)\]\*\* (.+)$/)]: the two captures. *)
Definition checkedMatch (line : jsstring) : option (jsstring * jsstring) :=
  matchTwoGroups (lit "- [x] **[") (lit "]** ") line.

(** The lazy group of a pattern [(.+?)q]: [acc] is what the group has taken
    so far (never empty); the group ends at the first [q] from here and
    cannot pass a line terminator. *)
Fixpoint lazyUntil (q : N) (acc s : jsstring) : option (jsstring * jsstring) :=
  match s with
  | [] => None
  | c :: s' =>
      if c =? q then Some (acc, s')
      else if isDot c then lazyUntil q (acc ++ [c]) s'
      else None
  end.

(** The optional group [(:(\d+))?] at the end of the File pattern: the
    digits when a colon and at least one digit follow. *)
Definition lineSuffix (s : jsstring) : option jsstring :=
  match s with
  | 58 :: r => match takeWhile isDigit r with
               | [] => None
               | ds => Some ds
               end
  | _ => None
  end.

(** The File pattern tried at the start of [s]: captures 1 and 3. *)
Definition fileAt (s : jsstring) : option (jsstring * option jsstring) :=
  match stripPrefix (lit "- **File**: `") s with
  | Some (c :: rest) =>
      if isDot c then
        '(p, after) ← lazyUntil 96 [c] rest; Some (p, lineSuffix after)
      else None
  | _ => None
  end.

(** [detailLine.match(/- \*\*File\*\*: `(.+?)`(:(\d+))?/)] *)
Definition fileMatch (detailLine : jsstring)
  : option (jsstring * option jsstring) :=
  search fileAt detailLine.

(** A pattern [label(.+)] tried at the start of [s]: the capture. *)
Definition labelAt (label s : jsstring) : option jsstring :=
  match stripPrefix label s with
  | Some r => match takeWhile isDot r with
              | [] => None
              | g => Some g
              end
  | None => None
  end.

(** [detailLine.match(/- \*\*Issue\*\*: (.+)/)] *)
Definition issueMatch (detailLine : jsstring) : option jsstring :=
  search (labelAt (lit "- **Issue**: ")) detailLine.

(** [detailLine.match(/- \*\*Suggestion\*\*: (.+)/)] *)
Definition suggestionMatch (detailLine : jsstring) : option jsstring :=
  search (labelAt (lit "- **Suggestion**: ")) detailLine.

(** The condition of the [break]: another checkbox, a section, or a blank
    line before a checkbox; [next] is [lines[i + 1]]. *)
Definition stopsDetails (detailLine : jsstring) (next : option jsstring)
  : bool :=
  startsWith (lit "- [") detailLine
  || startsWith (lit "##") detailLine
  || (bool_decide (trim detailLine = [])
      && match next with
         | Some l => startsWith (lit "- [") l
         | None => false
         end).

(** [l.replace(/^\s{4}/, "")] *)
Definition stripIndent (l : jsstring) : jsstring :=
  match l with
  | a :: b :: c :: d :: rest =>
      if isWhiteSpace a && isWhiteSpace b && isWhiteSpace c && isWhiteSpace d
      then rest else l
  | _ => l
  end.

(** The three field patterns applied to one detail line. *)
Definition captureFields (finding : ExtractedFinding) (detailLine : jsstring)
  : ExtractedFinding :=
  let finding :=
    match fileMatch detailLine with
    | Some (p, ln) =>
        {| severity := severity finding; category := category finding;
           file := p;
           line := match ln with
                   | Some ds => Some (parseInt ds)
                   | None => line finding
                   end;
           issue := issue finding; suggestion := suggestion finding;
           code := code finding |}
    | None => finding
    end in
  let finding :=
    match issueMatch detailLine with
    | Some g =>
        {| severity := severity finding; category := category finding;
           file := file finding; line := line finding;
           issue := g; suggestion := suggestion finding;
           code := code finding |}
    | None => finding
    end in
  match suggestionMatch detailLine with
  | Some g =>
      {| severity := severity finding; category := category finding;
         file := file finding; line := line finding;
         issue := issue finding; suggestion := Some g;
         code := code finding |}
  | None => finding
  end.

Definition setCode (finding : ExtractedFinding) (c : jsstring)
  : ExtractedFinding :=
  {| severity := severity finding; category := category finding;
     file := file finding; line := line finding;
     issue := issue finding; suggestion := suggestion finding;
     code := Some c |}.

(** [while (i < lines.length && !lines[i].trim().endsWith(fence))]: the
    index and the code lines when the loop is left. *)
Fixpoint fenceLoop (fuel : nat) (lines : list jsstring) (i : nat)
    (codeLines : list jsstring) : outcome (nat * list jsstring) :=
  match fuel with
  | O => OutOfFuel
  | S fuel' =>
      if bool_decide (i < length lines)%nat then
        match lines !! i with
        | None => TypeError
        | Some l =>
            if endsWith fence (trim l) then Done (i, codeLines)
            else fenceLoop fuel' lines (S i) (codeLines ++ [stripIndent l])
        end
      else Done (i, codeLines)
  end.

(** The inner [while (i < lines.length)] of an item: the index and the
    finding when the loop is left. *)
Fixpoint detailLoop (fuel : nat) (lines : list jsstring) (i : nat)
    (finding : ExtractedFinding) : outcome (nat * ExtractedFinding) :=
  match fuel with
  | O => OutOfFuel
  | S fuel' =>
      if bool_decide (i < length lines)%nat then
        match lines !! i with
        | None => TypeError
        | Some detailLine =>
            if stopsDetails detailLine (lines !! S i) then Done (i, finding)
            else
              let finding := captureFields finding detailLine in
              if includes (lit "- **Code**:") detailLine then
                let i := S i in
                if match lines !! i with
                   | Some l => startsWith fence (trim l)
                   | None => false
                   end
                then
                  let i := S i in
                  match fenceLoop fuel' lines i [] with
                  | Done (i, codeLines) =>
                      detailLoop fuel' lines (S i)
                        (setCode finding (join_newline codeLines))
                  | TypeError => TypeError
                  | OutOfFuel => OutOfFuel
                  end
                else detailLoop fuel' lines (S i) finding
              else detailLoop fuel' lines (S i) finding
        end
      else Done (i, finding)
  end.

Section WithLowerCase.

(** [String.prototype.toLowerCase] *)
Variable toLowerCase : jsstring -> jsstring.

(** The finding an item starts from. *)
Definition newFinding (m : jsstring * jsstring) : ExtractedFinding :=
  {| severity := toLowerCase m.1; category := m.2;
     file := []; line := None; issue := []; suggestion := None;
     code := None |}.

(** [if (finding.file && finding.issue)] *)
Definition hasRequiredFields (finding : ExtractedFinding) : bool :=
  truthy (file finding) && truthy (issue finding).

(** The outer [while (i < lines.length)].  The source applies the item
    pattern to the line twice, in the test and for the captures; the
    pattern has no state, so both give the same result. *)
Fixpoint extractLoop (fuel : nat) (lines : list jsstring) (i : nat)
    (findings : list ExtractedFinding) : outcome (list ExtractedFinding) :=
  match fuel with
  | O => OutOfFuel
  | S fuel' =>
      if bool_decide (i < length lines)%nat then
        match lines !! i with
        | None => TypeError
        | Some line =>
            match checkedMatch line with
            | Some m =>
                match detailLoop fuel' lines (S i) (newFinding m) with
                | Done (i, finding) =>
                    extractLoop fuel' lines i
                      (if hasRequiredFields finding
                       then findings ++ [finding] else findings)
                | TypeError => TypeError
                | OutOfFuel => OutOfFuel
                end
            | None => extractLoop fuel' lines (S i) findings
            end
        end
      else Done findings
  end.

(** [extractCheckedFindings] from the text of the report on: every pass
    through a loop moves [i] forward, so one unit of fuel per line and one
    for the last test is enough. *)
Definition extractCheckedFindings (content : jsstring)
  : outcome (list ExtractedFinding) :=
  let lines := split_newline content in
  extractLoop (S (length lines)) lines 0 [].

End WithLowerCase.

(** [toLowerCase] on the letters A to Z; the other code units are kept. *)
Definition asciiLowerCase (s : jsstring) : jsstring :=
  map (fun c => if (65 <=? c) && (c <=? 90) then c + 32 else c) s.

End Extract.

(** * Properties *)

(** ** String primitives *)

Section StringLemmas.

Lemma stripPrefix_app (p s : jsstring) : stripPrefix p (p ++ s) = Some s.
Proof.
  induction p as [|a p IH]; simpl; [done|].
  by rewrite N.eqb_refl.
Qed.

Lemma stripPrefix_Some (p s r : jsstring) :
  stripPrefix p s = Some r -> s = p ++ r.
Proof.
  revert s; induction p as [|a p IH]; intros [|b s]; simpl; try done.
  - by intros [= ->].
  - by intros [= ->].
  - destruct (N.eqb_spec a b) as [->|]; [|done].
    intros H; by rewrite (IH _ H).
Qed.

Lemma startsWith_true (p s : jsstring) :
  startsWith p s = true <-> exists r, s = p ++ r.
Proof.
  unfold startsWith; split.
  - destruct (stripPrefix p s) eqn:E; [|done].
    intros _; eexists; by apply stripPrefix_Some.
  - intros [r ->]; by rewrite stripPrefix_app.
Qed.

Lemma takeWhile_app (f : N -> bool) (ds rest : jsstring) :
  forallb f ds = true ->
  match rest with c :: _ => f c = false | [] => True end ->
  takeWhile f (ds ++ rest) = ds /\ dropWhile f (ds ++ rest) = rest.
Proof.
  intros Hds Hrest; induction ds as [|d ds IH]; simpl in *.
  - destruct rest as [|c rest]; [done|]; simpl; by rewrite Hrest.
  - apply andb_prop in Hds as [-> Hds].
    destruct (IH Hds) as [-> ->]; done.
Qed.

End StringLemmas.

(** ** Numbers *)

Section NumberLemmas.

Lemma roundToDouble_exact (n : N) :
  n <= exactLimit -> roundToDouble n = Finite n.
Proof.
  intros Hn; unfold roundToDouble.
  destruct (N.ltb_spec n exactLimit) as [|Hge]; [done|].
  assert (n = exactLimit) as -> by lia.
  by vm_compute.
Qed.

Lemma increment_exact (n : N) :
  n < exactLimit -> increment (Finite n) = Finite (n + 1).
Proof. intros Hn; apply roundToDouble_exact; lia. Qed.

Lemma parseInt_exact (ds : jsstring) :
  decimalValue ds <= exactLimit -> parseInt ds = Finite (decimalValue ds).
Proof. apply roundToDouble_exact. Qed.

(** Above [2^53]: an odd integer goes to the neighbour whose significand
    is even, [10^23] is not a double, [2^53] and [2^53 + 4] stay where
    they are when one is added, and a numeral of 310 digits is
    [Infinity]. *)
Example roundToDouble_above_the_limit :
  roundToDouble 9007199254740993 = Finite 9007199254740992
  /\ roundToDouble 9007199254740995 = Finite 9007199254740996
  /\ roundToDouble (10 ^ 23) = Finite 99999999999999991611392
  /\ increment (Finite 9007199254740992) = Finite 9007199254740992
  /\ increment (Finite 9007199254740994) = Finite 9007199254740996
  /\ increment (Finite 9007199254740996) = Finite 9007199254740996
  /\ roundToDouble (10 ^ 309) = Infinity.
Proof. by vm_compute. Qed.

End NumberLemmas.

(** ** The diff parser *)

Module GitDiffParserProofs.

Import GitDiffParser.

(** *** Hunk headers *)

(** A non-empty run of decimal digits. *)
Definition numeral (ds : jsstring) : bool := truthy ds && forallb isDigit ds.

(** The optional [,<count>] of a range. *)
Definition countSuffix (count : option jsstring) : jsstring :=
  match count with
  | Some c => 44 :: c
  | None => []
  end.

Definition countOk (count : option jsstring) : bool :=
  match count with
  | Some c => forallb isDigit c
  | None => true
  end.

(** [@@ -<oldStart>[,<oldCount>] +<newStart>[,<newCount>] @@<tail>] *)
Definition hunkHeader (oldStart : jsstring) (oldCount : option jsstring)
    (newStart : jsstring) (newCount : option jsstring) (tail : jsstring)
  : jsstring :=
  lit "@@ -" ++ oldStart ++ countSuffix oldCount ++
  lit " +" ++ newStart ++ countSuffix newCount ++ lit " @@" ++ tail.

Lemma rangeSpec_range (start : jsstring) (count : option jsstring)
    (rest : jsstring) :
  numeral start = true -> countOk count = true ->
  rangeSpec (start ++ countSuffix count ++ 32 :: rest) = Some (start, 32 :: rest).
Proof.
  unfold numeral, rangeSpec; intros [Hne Hds]%andb_prop Hc.
  destruct count as [c|]; simpl in *.
  - destruct (takeWhile_app isDigit start (44 :: c ++ 32 :: rest) Hds)
      as [-> ->]; [done|].
    destruct start; [done|].
    by destruct (takeWhile_app isDigit c (32 :: rest) Hc) as [_ ->].
  - destruct (takeWhile_app isDigit start (32 :: rest) Hds) as [-> ->]; [done|].
    by destruct start.
Qed.

Lemma hunkMatch_header oldStart oldCount newStart newCount tail :
  numeral oldStart = true -> countOk oldCount = true ->
  numeral newStart = true -> countOk newCount = true ->
  hunkMatch (hunkHeader oldStart oldCount newStart newCount tail)
  = Some newStart.
Proof.
  intros Ho Hoc Hn Hnc; unfold hunkMatch, hunkHeader.
  rewrite stripPrefix_app; simpl.
  change (lit " +" ++ ?x) with (32 :: 43 :: x).
  rewrite (rangeSpec_range oldStart oldCount) by done; simpl.
  change (lit " @@" ++ ?x) with (32 :: 64 :: 64 :: x).
  by rewrite (rangeSpec_range newStart newCount).
Qed.

Lemma hunkMatch_at (line newStart : jsstring) :
  hunkMatch line = Some newStart -> exists r, line = 64 :: r.
Proof.
  unfold hunkMatch; intros H.
  destruct (stripPrefix (lit "@@ -") line) as [s1|] eqn:E; [|done].
  apply stripPrefix_Some in E as ->; by eexists.
Qed.

Lemma hunkMatch_None_of_head (c : N) (line : jsstring) :
  c <> 64 -> startsWith [c] line = true -> hunkMatch line = None.
Proof.
  intros Hc [r ->]%startsWith_true.
  destruct (hunkMatch ([c] ++ r)) eqn:E; [|done].
  apply hunkMatch_at in E as [r' [= ->]]; done.
Qed.

(** *** The rules of the line loop *)

(** The state after a change of kind [k] has been pushed for [line]. *)
Definition pushChange (k : ChangeType) (st : LoopState) (line : jsstring)
  : list Change :=
  ls_changes st ++
  [{| type := k; lineNumber := currentLineNumber st; content := drop 1 line |}].

(** A block whose one hunk starts at line [2^53], with two added lines. *)
Definition limitDiff : jsstring :=
  lit "diff --git a/x.ts b/x.ts" ++ [LF] ++
  lit "@@ -1,0 +9007199254740992,2 @@" ++ [LF] ++
  lit "+first" ++ [LF] ++
  lit "+second" ++ [LF].

(** C1, as stated, fails: in [limitDiff] the second added line is numbered
    as the first, the running line number having stayed where it was after
    the first; and a header whose new start is [2^53 + 1] sets the running
    line number to [2^53]. *)
Lemma counter_stops_at_the_limit :
  map (fun c => (type c, lineNumber c))
    (concat (map changes (files (processDiff limitDiff None))))
  = [(add, Finite 9007199254740992); (add, Finite 9007199254740992)]
  /\ currentLineNumber
       (lineStep initialState (lit "@@ -1,0 +9007199254740993 @@"))
     = Finite 9007199254740992.
Proof. by vm_compute. Qed.

(** C1, amended. Line by line, the loop of [parseFileDiff] does the
    following.  A hunk header [@@ -a[,b] +c[,d] @@...] sets the running
    line number to [parseInt c] and pushes nothing.  A line that begins
    with [+] but not [+++] pushes an [add] change at the running line
    number and then increments it; a line that begins with [-] but not
    [---] pushes a [delete] change at the running line number and leaves
    it as it is; a line that begins with a space pushes a [context] change
    at the running line number and increments it.  Every other line pushes
    nothing, and leaves the running line number alone unless it is a hunk
    header.  The loop applies these rules to the lines in order, each to
    the state the lines before it left, and the changes of the parsed file
    are those pushed over the lines of its block, from running line number
    0.  The numbers are those of the language: [parseInt c] is the integer
    [c] when that is at most [2^53], and incrementing adds one to a number
    below [2^53]. *)
Theorem parseFileDiff_line_rules (st : LoopState) (line : jsstring) :
  (forall oldStart oldCount newStart newCount tail,
      numeral oldStart = true -> countOk oldCount = true ->
      numeral newStart = true -> countOk newCount = true ->
      line = hunkHeader oldStart oldCount newStart newCount tail ->
      lineStep st line =
        {| ls_changes := ls_changes st; ls_additions := ls_additions st;
           ls_deletions := ls_deletions st;
           currentLineNumber := parseInt newStart |}
      /\ (decimalValue newStart <= exactLimit ->
          currentLineNumber (lineStep st line) = Finite (decimalValue newStart)))
  /\ (startsWith (lit "+") line = true -> startsWith (lit "+++") line = false ->
      lineStep st line =
        {| ls_changes := pushChange add st line;
           ls_additions := ls_additions st + 1;
           ls_deletions := ls_deletions st;
           currentLineNumber := increment (currentLineNumber st) |}
      /\ forall n, currentLineNumber st = Finite n -> n < exactLimit ->
                   currentLineNumber (lineStep st line) = Finite (n + 1))
  /\ (startsWith (lit "-") line = true -> startsWith (lit "---") line = false ->
      lineStep st line =
        {| ls_changes := pushChange delete st line;
           ls_additions := ls_additions st;
           ls_deletions := ls_deletions st + 1;
           currentLineNumber := currentLineNumber st |})
  /\ (startsWith (lit " ") line = true ->
      lineStep st line =
        {| ls_changes := pushChange context st line;
           ls_additions := ls_additions st;
           ls_deletions := ls_deletions st;
           currentLineNumber := increment (currentLineNumber st) |}
      /\ forall n, currentLineNumber st = Finite n -> n < exactLimit ->
                   currentLineNumber (lineStep st line) = Finite (n + 1))
  /\ (startsWith (lit "+") line && negb (startsWith (lit "+++") line) = false ->
      startsWith (lit "-") line && negb (startsWith (lit "---") line) = false ->
      startsWith (lit " ") line = false ->
      ls_changes (lineStep st line) = ls_changes st
      /\ (hunkMatch line = None -> lineStep st line = st))
  /\ (forall before,
      parseLines st (before ++ [line]) = lineStep (parseLines st before) line)
  /\ (forall block fd,
      parseFileDiff block = Some fd ->
      changes fd = ls_changes (parseLines initialState (split_newline block))).
Proof.
  refine (conj _ (conj _ (conj _ (conj _ (conj _ (conj _ _)))))).
  - intros * Ho Hoc Hn Hnc ->; unfold lineStep.
    rewrite hunkMatch_header by done; split; [done|].
    intros Hv; simpl; by apply parseInt_exact.
  - intros Hp Hppp.
    assert (lineStep st line =
            {| ls_changes := pushChange add st line;
               ls_additions := ls_additions st + 1;
               ls_deletions := ls_deletions st;
               currentLineNumber := increment (currentLineNumber st) |}) as ->.
    { unfold lineStep.
      rewrite (hunkMatch_None_of_head 43) by done.
      change (lit "+") with [43] in *; by rewrite Hp, Hppp. }
    split; [done|]; intros n -> Hn; simpl; by apply increment_exact.
  - intros Hm Hmmm; unfold lineStep.
    rewrite (hunkMatch_None_of_head 45) by done.
    assert (startsWith (lit "+") line = false) as ->
      by (apply startsWith_true in Hm as [r ->]; done).
    by rewrite Hm, Hmmm.
  - intros Hs.
    assert (lineStep st line =
            {| ls_changes := pushChange context st line;
               ls_additions := ls_additions st;
               ls_deletions := ls_deletions st;
               currentLineNumber := increment (currentLineNumber st) |}) as ->.
    { unfold lineStep.
      rewrite (hunkMatch_None_of_head 32) by done.
      assert (startsWith (lit "+") line = false) as ->
        by (apply startsWith_true in Hs as [r ->]; done).
      assert (startsWith (lit "-") line = false) as ->
        by (apply startsWith_true in Hs as [r ->]; done).
      by rewrite Hs. }
    split; [done|]; intros n -> Hn; simpl; by apply increment_exact.
  - intros H H0 H1; split.
    + unfold lineStep; destruct (hunkMatch line); [done|].
      by rewrite H, H0, H1.
    + unfold lineStep; intros ->; by rewrite H, H0, H1.
  - intros before; unfold parseLines; by rewrite fold_left_app.
  - intros block fd; unfold parseFileDiff.
    destruct (filePathMatch _) as [[oldP newP]|]; [|done].
    by intros [= <-].
Qed.

(** The rules at the lines of a small hunk, from running line number 7. *)
Definition atSeven : LoopState :=
  {| ls_changes := []; ls_additions := 0; ls_deletions := 0;
     currentLineNumber := 7 |}.

Lemma parseFileDiff_line_rules_witness :
  lineStep initialState (lit "@@ -10,2 +12 @@ f()")
  = {| ls_changes := []; ls_additions := 0; ls_deletions := 0;
       currentLineNumber := 12 |}
  /\ lineStep atSeven (lit "+added")
     = {| ls_changes := [{| type := add; lineNumber := 7;
                            content := lit "added" |}];
          ls_additions := 1; ls_deletions := 0; currentLineNumber := 8 |}
  /\ currentLineNumber (lineStep atSeven (lit "+added")) = Finite (7 + 1)
  /\ lineStep atSeven (lit "-old")
     = {| ls_changes := [{| type := delete; lineNumber := 7;
                            content := lit "old" |}];
          ls_additions := 0; ls_deletions := 1; currentLineNumber := 7 |}
  /\ lineStep atSeven (lit " kept")
     = {| ls_changes := [{| type := context; lineNumber := 7;
                            content := lit "kept" |}];
          ls_additions := 0; ls_deletions := 0; currentLineNumber := 8 |}
  /\ lineStep atSeven (lit "+++ b/x.ts") = atSeven.
Proof.
  refine (conj _ (conj _ (conj _ (conj _ (conj _ _))))).
  - apply (proj1 (proj1 (parseFileDiff_line_rules initialState
                           (lit "@@ -10,2 +12 @@ f()"))
                    (lit "10") (Some (lit "2")) (lit "12") None (lit " f()")
                    eq_refl eq_refl eq_refl eq_refl eq_refl)).
  - apply (proj1 (proj1 (proj2 (parseFileDiff_line_rules atSeven (lit "+added")))
                    eq_refl eq_refl)).
  - apply (proj2 (proj1 (proj2 (parseFileDiff_line_rules atSeven (lit "+added")))
                    eq_refl eq_refl) 7 eq_refl); reflexivity.
  - apply (proj1 (proj2 (proj2
             (parseFileDiff_line_rules atSeven (lit "-old")))));
      reflexivity.
  - apply (proj1 (proj1 (proj2 (proj2 (proj2
             (parseFileDiff_line_rules atSeven (lit " kept")))))
                    eq_refl)).
  - apply (proj1 (proj2 (proj2 (proj2 (proj2
             (parseFileDiff_line_rules atSeven (lit "+++ b/x.ts")))))));
      reflexivity.
Defined.

(** *** The example of the specification *)

(** [diff --git a/x.ts b/x.ts], a hunk header, a context line, an added
    line and a deleted line, each followed by a line feed. *)
Definition exampleDiff : jsstring :=
  lit "diff --git a/x.ts b/x.ts" ++ [LF] ++
  lit "@@ -1,2 +1,3 @@" ++ [LF] ++
  lit " line1" ++ [LF] ++
  lit "+added" ++ [LF] ++
  lit "-old" ++ [LF].

(** The kinds and line numbers of the changes of all files. *)
Definition changeLines (pd : ParsedDiff) : list (ChangeType * number) :=
  map (fun c => (type c, lineNumber c)) (concat (map changes (files pd))).

(** C2, as stated, fails: the changes of the example are not numbered
    1 (context), 2 (add), 1 (delete). *)
Lemma example_delete_is_not_at_line_1 :
  changeLines (processDiff exampleDiff None)
  <> [(context, Finite 1); (add, Finite 2); (delete, Finite 1)].
Proof. vm_compute; intros [=]. Qed.

(** C2, amended. The example parses to exactly one file, [x.ts], modified,
    with one addition and one deletion, and three changes: the context line
    at 1, the added line at 2 and the deleted line at 3, the value the
    running line number has after the context and the added line. *)
Theorem example_parses_to_one_file :
  files (processDiff exampleDiff None)
  = [ {| path := lit "x.ts"; oldPath := None; status := modified;
         additions := 1; deletions := 1;
         changes :=
           [ {| type := context; lineNumber := 1; content := lit "line1" |};
             {| type := add; lineNumber := 2; content := lit "added" |};
             {| type := delete; lineNumber := 3; content := lit "old" |} ] |} ]
  /\ totalAdditions (processDiff exampleDiff None) = 1
  /\ totalDeletions (processDiff exampleDiff None) = 1.
Proof. by vm_compute. Qed.

(** *** Counts *)

Definition isKind (k : ChangeType) (c : Change) : bool :=
  match k, type c with
  | add, add | delete, delete | context, context => true
  | _, _ => false
  end.

(** The number of changes of kind [k]. *)
Definition countKind (k : ChangeType) (cs : list Change) : N :=
  N.of_nat (length (List.filter (isKind k) cs)).

Definition sumN (l : list N) : N := foldr N.add 0 l.

Definition countsAgree (st : LoopState) : Prop :=
  ls_additions st = countKind add (ls_changes st)
  /\ ls_deletions st = countKind delete (ls_changes st).

Lemma countKind_snoc (k : ChangeType) (cs : list Change) (c : Change) :
  countKind k (cs ++ [c]) = countKind k cs + (if isKind k c then 1 else 0).
Proof.
  unfold countKind; rewrite List.filter_app, length_app; simpl.
  destruct (isKind k c); simpl; lia.
Qed.

Lemma lineStep_countsAgree (st : LoopState) (line : jsstring) :
  countsAgree st -> countsAgree (lineStep st line).
Proof.
  intros [Ha Hd]; unfold lineStep, countsAgree.
  repeat case_match; simpl; rewrite ?countKind_snoc; simpl; split; lia.
Qed.

Lemma parseLines_countsAgree (lines : list jsstring) (st : LoopState) :
  countsAgree st -> countsAgree (parseLines st lines).
Proof.
  revert st; induction lines as [|l lines IH]; intros st H; [done|].
  apply IH, lineStep_countsAgree, H.
Qed.

Lemma parseFileDiff_counts (block : jsstring) (fd : FileDiff) :
  parseFileDiff block = Some fd ->
  additions fd = countKind add (changes fd)
  /\ deletions fd = countKind delete (changes fd).
Proof.
  unfold parseFileDiff; destruct (filePathMatch _) as [[oldP newP]|]; [|done].
  intros [= <-]; simpl.
  by apply parseLines_countsAgree.
Qed.

(** The file blocks of a diff text: [split(...).filter(Boolean)]. *)
Definition fileBlocks (diffContent : jsstring) : list jsstring :=
  List.filter truthy (splitFileDiffs 0 true diffContent).

(** The files [processDiff] retains: the blocks that parse, with a
    supported extension. *)
Definition retained (blocks : list jsstring) : list FileDiff :=
  List.filter (fun fd => isSupportedFile (path fd))
    (omap parseFileDiff blocks).

Lemma fileStep_fold (blocks : list jsstring) (acc : Totals) :
  let acc' := fold_left fileStep blocks acc in
  t_files acc' = t_files acc ++ retained blocks
  /\ t_additions acc' = t_additions acc + sumN (map additions (retained blocks))
  /\ t_deletions acc' = t_deletions acc + sumN (map deletions (retained blocks)).
Proof.
  revert acc; induction blocks as [|b blocks IH]; intros acc; simpl.
  - rewrite app_nil_r; unfold sumN; simpl; repeat split; lia.
  - destruct (IH (fileStep acc b)) as (Hf & Ha & Hd).
    rewrite Hf, Ha, Hd; clear IH Hf Ha Hd.
    unfold fileStep, retained; simpl.
    destruct (parseFileDiff b) as [fd|]; simpl; [|done].
    destruct (isSupportedFile (path fd)); simpl; [|done].
    rewrite <- app_assoc; simpl; unfold sumN; simpl.
    repeat split; symmetry; apply N.add_assoc.
Qed.

(** C3. In every file of a parsed diff, [additions] is the number of [add]
    changes and [deletions] the number of [delete] changes of its
    [changes]; the files are the retained ones (the blocks that parse and
    have a supported extension), and [totalAdditions] and [totalDeletions]
    are the sums of [additions] and [deletions] over these files. *)
Theorem processDiff_counts (diffContent : jsstring)
    (summary : option DiffResult) :
  let pd := processDiff diffContent summary in
  Forall (fun fd => additions fd = countKind add (changes fd)
                    /\ deletions fd = countKind delete (changes fd))
         (files pd)
  /\ files pd = retained (fileBlocks diffContent)
  /\ totalAdditions pd = sumN (map additions (files pd))
  /\ totalDeletions pd = sumN (map deletions (files pd)).
Proof.
  unfold processDiff; simpl; fold (fileBlocks diffContent).
  destruct (fileStep_fold (fileBlocks diffContent)
              {| t_files := []; t_additions := 0; t_deletions := 0 |})
    as (Hf & Ha & Hd); simpl in *.
  rewrite Hf, Ha, Hd; repeat split; try done.
  apply Forall_forall; intros fd Hin.
  unfold retained in Hin.
  apply List.filter_In in Hin as [Hin _].
  apply (proj2 (list_elem_of_In _ _)) in Hin.
  apply list_elem_of_omap in Hin as (b & _ & Hb).
  by apply parseFileDiff_counts in Hb.
Qed.

(** *** Line numbers *)

(** The changes that stand for a line of the new file. *)
Definition advances (c : Change) : bool :=
  match type c with
  | add | context => true
  | delete => false
  end.

(** The line numbers of the [add] and [context] changes, in order. *)
Definition newLineNumbers (cs : list Change) : list number :=
  map lineNumber (List.filter advances cs).

(** Two hunks, the second of which starts at an earlier line than the
    first. *)
Definition descendingHunks : jsstring :=
  lit "diff --git a/x.ts b/x.ts" ++ [LF] ++
  lit "@@ -5,0 +5,1 @@" ++ [LF] ++
  lit "+later" ++ [LF] ++
  lit "@@ -1,0 +1,1 @@" ++ [LF] ++
  lit "+earlier" ++ [LF].

(** C8, as stated, fails: the added lines of the one file of
    [descendingHunks] are numbered 5 and then 1. *)
Lemma descending_hunks_not_increasing :
  ~ Forall (fun fd => StronglySorted ltNumber (newLineNumbers (changes fd)))
      (files (processDiff descendingHunks None)).
Proof.
  vm_compute; intros H.
  apply Forall_inv, StronglySorted_inv in H as [_ H].
  apply Forall_inv in H; discriminate H.
Qed.

(** Nor are they increasing from [2^53] on: the two added lines of
    [limitDiff] have the same number. *)
Example limit_hunk_not_increasing :
  ~ Forall (fun fd => StronglySorted ltNumber (newLineNumbers (changes fd)))
      (files (processDiff limitDiff None)).
Proof.
  vm_compute; intros H.
  apply Forall_inv, StronglySorted_inv in H as [_ H].
  apply Forall_inv in H; discriminate H.
Qed.

(** **** The hunks of a block, read off its text *)

(** A line that stands for a line of the new file: it begins with [+] but
    not with [+++], or with a space. *)
Definition isNewLine (line : jsstring) : bool :=
  startsWith (lit "+") line && negb (startsWith (lit "+++") line)
  || startsWith (lit " ") line.

(** The hunks of the lines of a block: for every hunk header its new
    start, as an integer, with the number of new-file lines between it and
    the next header; before them, the new-file lines that come before the
    first header, counted as a hunk [start] that has [count] lines
    already. *)
Fixpoint hunksOf (start : N) (count : nat) (lines : list jsstring)
  : list (N * nat) :=
  match lines with
  | [] => [(start, count)]
  | l :: ls =>
      match hunkMatch l with
      | Some newStart => (start, count) :: hunksOf (decimalValue newStart) 0 ls
      | None => hunksOf start (if isNewLine l then S count else count) ls
      end
  end.

Definition hunks (lines : list jsstring) : list (N * nat) :=
  hunksOf 0 0 lines.

(** The integers [start], [start + 1], ... of a hunk with [count] new-file
    lines. *)
Definition range (h : N * nat) : list N :=
  map (fun i => h.1 + N.of_nat i) (seq 0 h.2).

(** The hunks are in order: each hunk that has new-file lines starts at
    [next] or later, [next] being the line after the last new-file line of
    the hunks before it.  A hunk without new-file lines, as a hunk of
    deletions only, is free to start anywhere. *)
Fixpoint inOrder (next : N) (hs : list (N * nat)) : bool :=
  match hs with
  | [] => true
  | h :: hs' =>
      match h.2 with
      | O => inOrder next hs'
      | S _ => (next <=? h.1) && inOrder (h.1 + N.of_nat h.2) hs'
      end
  end.

Definition hunksInOrder (lines : list jsstring) : bool :=
  inOrder 0 (hunks lines).

(** No hunk reaches past [2^53]: its lines are numbered exactly. *)
Definition countsExactly (lines : list jsstring) : bool :=
  forallb (fun h => h.1 + N.of_nat h.2 <=? exactLimit) (hunks lines).

Lemma StronglySorted_snoc (l : list N) (n : N) :
  StronglySorted N.lt l -> Forall (fun m => m < n) l ->
  StronglySorted N.lt (l ++ [n]).
Proof.
  induction 1 as [|a l Hl IH Ha]; intros Hn; simpl.
  - repeat constructor.
  - inversion_clear Hn as [|? ? Han Hn']; constructor; [by apply IH|].
    apply Forall_app; split; [done|by constructor].
Qed.

Lemma StronglySorted_app_iff {A : Type} (R : A -> A -> Prop) (l1 l2 : list A) :
  StronglySorted R (l1 ++ l2)
  <-> StronglySorted R l1 /\ StronglySorted R l2
      /\ Forall (fun a => Forall (R a) l2) l1.
Proof.
  induction l1 as [|a l1 IH]; simpl.
  - split; [intros H; repeat split; (done || constructor)|by intros (_ & ? & _)].
  - split.
    + intros [Hs Ha]%StronglySorted_inv.
      apply IH in Hs as (H1 & H2 & H12).
      apply Forall_app in Ha as [Ha1 Ha2].
      repeat split; [by constructor|done|by constructor].
    + intros (H1 & H2 & H12).
      apply StronglySorted_inv in H1 as [H1 Ha1].
      inversion_clear H12 as [|? ? Ha2 H12'].
      constructor; [apply IH; by repeat split|].
      apply Forall_app; by split.
Qed.

Lemma StronglySorted_Finite (l : list N) :
  StronglySorted ltNumber (map Finite l) <-> StronglySorted N.lt l.
Proof.
  induction l as [|a l IH]; simpl; [split; constructor|].
  split; intros [Hs Ha]%StronglySorted_inv; (constructor; [by apply IH|]).
  - apply List.Forall_forall; intros x Hx.
    rewrite List.Forall_forall in Ha.
    exact (Ha (Finite x) (in_map Finite l x Hx)).
  - apply List.Forall_forall; intros y (x & <- & Hx)%in_map_iff.
    rewrite List.Forall_forall in Ha; exact (Ha x Hx).
Qed.

Lemma newLineNumbers_snoc (cs : list Change) (c : Change) :
  newLineNumbers (cs ++ [c])
  = newLineNumbers cs ++ (if advances c then [lineNumber c] else []).
Proof.
  unfold newLineNumbers; rewrite List.filter_app, map_app; simpl.
  by destruct (advances c).
Qed.

Lemma range_S (s : N) (k : nat) :
  range (s, S k) = range (s, k) ++ [s + N.of_nat k].
Proof. unfold range; simpl fst; simpl snd. by rewrite seq_S, map_app. Qed.

Lemma range_In (h : N * nat) (n : N) :
  In n (range h) <-> h.1 <= n < h.1 + N.of_nat h.2.
Proof.
  unfold range; rewrite in_map_iff; split.
  - intros (i & <- & Hi%in_seq); lia.
  - intros Hn; exists (N.to_nat (n - h.1)); split; [lia|].
    apply in_seq; lia.
Qed.

Lemma range_sorted (s : N) (k : nat) : StronglySorted N.lt (range (s, k)).
Proof.
  induction k as [|k IH]; [constructor|].
  rewrite range_S; apply StronglySorted_snoc; [done|].
  apply List.Forall_forall; intros n Hn%range_In; simpl in Hn; lia.
Qed.

(** The numbers of hunks in order are increasing, and only theirs. *)
Lemma inOrder_sorted (hs : list (N * nat)) (next : N) :
  inOrder next hs = true
  <-> StronglySorted N.lt (flat_map range hs)
      /\ Forall (N.le next) (flat_map range hs).
Proof.
  revert next; induction hs as [|[s k] hs IH]; intros next; simpl.
  { split; [intros _; split; constructor|done]. }
  destruct k as [|k]; [apply IH|].
  rewrite andb_true_iff, N.leb_le, IH, StronglySorted_app_iff, Forall_app.
  rewrite !List.Forall_forall.
  split.
  - intros (Hn & Hs & Hb); repeat split.
    + apply range_sorted.
    + done.
    + intros a Ha%range_In; apply List.Forall_forall; intros b Hb'.
      apply Hb in Hb'; simpl in *; lia.
    + intros a Ha%range_In; simpl in *; lia.
    + intros b Hb'; apply Hb in Hb'; simpl in *; lia.
  - intros ((_ & Hs & Hab) & Ha & Hb).
    assert (In s (range (s, S k))) as Hfirst
      by (apply range_In; simpl; lia).
    assert (In (s + N.of_nat k) (range (s, S k))) as Hlast
      by (apply range_In; simpl; lia).
    repeat split.
    + by apply Ha in Hfirst.
    + done.
    + intros b Hb'. apply Hab in Hlast.
      rewrite List.Forall_forall in Hlast; apply Hlast in Hb'; simpl; lia.
Qed.

(** What one line does to the numbers of the new-file lines and to the
    running line number. *)
Lemma lineStep_header (st : LoopState) (line newStart : jsstring) :
  hunkMatch line = Some newStart ->
  ls_changes (lineStep st line) = ls_changes st
  /\ currentLineNumber (lineStep st line) = parseInt newStart.
Proof. intros Hh; unfold lineStep; by rewrite Hh. Qed.

Lemma lineStep_newLine (st : LoopState) (line : jsstring) :
  hunkMatch line = None -> isNewLine line = true ->
  newLineNumbers (ls_changes (lineStep st line))
  = newLineNumbers (ls_changes st) ++ [currentLineNumber st]
  /\ currentLineNumber (lineStep st line) = increment (currentLineNumber st).
Proof.
  intros Hh Hn; unfold lineStep, isNewLine in *; rewrite Hh.
  destruct (startsWith (lit "+") line && negb (startsWith (lit "+++") line));
    [simpl; by rewrite newLineNumbers_snoc|].
  cbn [orb] in Hn.
  assert (startsWith (lit "-") line = false) as ->
    by (apply startsWith_true in Hn as [r ->]; done).
  rewrite Hn; simpl; by rewrite newLineNumbers_snoc.
Qed.

Lemma lineStep_otherLine (st : LoopState) (line : jsstring) :
  hunkMatch line = None -> isNewLine line = false ->
  newLineNumbers (ls_changes (lineStep st line))
  = newLineNumbers (ls_changes st)
  /\ currentLineNumber (lineStep st line) = currentLineNumber st.
Proof.
  intros Hh Hn; unfold lineStep, isNewLine in *; rewrite Hh.
  apply orb_false_elim in Hn as [-> ->].
  destruct (startsWith (lit "-") line && negb (startsWith (lit "---") line));
    simpl; [|done].
  by rewrite newLineNumbers_snoc, app_nil_r.
Qed.

Lemma hunksOf_head (lines : list jsstring) (s : N) (k : nat) :
  exists k' tl, hunksOf s k lines = (s, k') :: tl /\ (k <= k')%nat.
Proof.
  revert k; induction lines as [|l ls IH]; intros k; simpl; [by eauto|].
  destruct (hunkMatch l); [by eauto|].
  destruct (IH (if isNewLine l then S k else k)) as (k' & tl & -> & Hk).
  exists k', tl; split; [done|]. destruct (isNewLine l); lia.
Qed.

Lemma hunksOf_exact (lines : list jsstring) (s : N) (k : nat) :
  forallb (fun h => h.1 + N.of_nat h.2 <=? exactLimit) (hunksOf s k lines)
  = true ->
  s + N.of_nat k <= exactLimit.
Proof.
  destruct (hunksOf_head lines s k) as (k' & tl & -> & Hk); simpl.
  intros [H _]%andb_prop; apply N.leb_le in H; lia.
Qed.

(** From a state whose running line number is that of hunk [s] after [k]
    of its lines, the loop numbers the new-file lines as the hunks say. *)
Lemma parseLines_hunks (lines : list jsstring) (st : LoopState) (s : N)
    (k : nat) :
  currentLineNumber st = Finite (s + N.of_nat k) ->
  forallb (fun h => h.1 + N.of_nat h.2 <=? exactLimit) (hunksOf s k lines)
  = true ->
  exists rest,
    newLineNumbers (ls_changes (parseLines st lines))
    = newLineNumbers (ls_changes st) ++ map Finite rest
    /\ range (s, k) ++ rest = flat_map range (hunksOf s k lines).
Proof.
  revert st s k; induction lines as [|l ls IH]; intros st s k Hc Hex.
  { exists []; simpl; by rewrite !app_nil_r. }
  simpl in Hex |- *.
  destruct (hunkMatch l) as [newStart|] eqn:Hh.
  - simpl in Hex; apply andb_prop in Hex as [_ Hex].
    destruct (lineStep_header st l newStart Hh) as [Hch Hcn].
    pose proof (hunksOf_exact _ _ _ Hex) as Hv; simpl in Hv.
    destruct (IH (lineStep st l) (decimalValue newStart) O) as (rest & Hr & Hf);
      [|done|].
    { rewrite Hcn, parseInt_exact by lia. f_equal; simpl; lia. }
    exists rest; split.
    + unfold parseLines in *; simpl. by rewrite Hr, Hch.
    + simpl; by rewrite <- Hf.
  - destruct (isNewLine l) eqn:Hn.
    + destruct (lineStep_newLine st l Hh Hn) as [Hch Hcn].
      pose proof (hunksOf_exact _ _ _ Hex) as Hv.
      destruct (IH (lineStep st l) s (S k)) as (rest & Hr & Hf); [|done|].
      { rewrite Hcn, Hc, increment_exact by lia. f_equal; lia. }
      exists ((s + N.of_nat k) :: rest); split.
      * unfold parseLines in *; simpl.
        by rewrite Hr, Hch, Hc, <- app_assoc.
      * rewrite <- Hf, range_S, <- app_assoc; done.
    + destruct (lineStep_otherLine st l Hh Hn) as [Hch Hcn].
      destruct (IH (lineStep st l) s k) as (rest & Hr & Hf); [congruence|done|].
      exists rest; split; [|done].
      unfold parseLines in *; simpl. by rewrite Hr, Hch.
Qed.

(** C8, amended. Take a file block in which no hunk reaches past [2^53].
    The line numbers of the [add] and [context] changes of the parsed
    file, taken in order, are those of its hunks: new start, new start
    plus one, and so on, one for each new-file line of the hunk.  They are
    strictly increasing exactly when the hunks are in order, each hunk
    that has new-file lines starting after the last new-file line before
    it.  A line that is not a hunk header either is a new-file line,
    pushes an [add] or [context] change at the running line number and
    increments it, by exactly one below [2^53], or pushes no such change
    (a [delete] change or nothing) and leaves the running line number as
    it is. *)
Theorem parseFileDiff_line_numbers_increase :
  (forall block fd,
      parseFileDiff block = Some fd ->
      countsExactly (split_newline block) = true ->
      newLineNumbers (changes fd)
      = map Finite (flat_map range (hunks (split_newline block)))
      /\ (hunksInOrder (split_newline block) = true
          <-> StronglySorted ltNumber (newLineNumbers (changes fd))))
  /\ (forall st line,
      hunkMatch line = None ->
      if isNewLine line then
        newLineNumbers (ls_changes (lineStep st line))
        = newLineNumbers (ls_changes st) ++ [currentLineNumber st]
        /\ currentLineNumber (lineStep st line)
           = increment (currentLineNumber st)
        /\ forall n, currentLineNumber st = Finite n -> n < exactLimit ->
                     currentLineNumber (lineStep st line) = Finite (n + 1)
      else
        newLineNumbers (ls_changes (lineStep st line))
        = newLineNumbers (ls_changes st)
        /\ currentLineNumber (lineStep st line) = currentLineNumber st).
Proof.
  split.
  - intros block fd; unfold parseFileDiff.
    destruct (filePathMatch _) as [[oldP newP]|]; [|done].
    intros [= <-] Hex; simpl.
    destruct (parseLines_hunks (split_newline block) initialState 0 0)
      as (rest & Hr & Hf); [done|done|].
    simpl in Hr, Hf; fold (hunks (split_newline block)) in Hf.
    rewrite Hr, Hf; split; [done|].
    unfold hunksInOrder; rewrite inOrder_sorted, StronglySorted_Finite.
    split; [by intros [? _]|intros H; split; [done|]].
    apply List.Forall_forall; intros; lia.
  - intros st line Hh; destruct (isNewLine line) eqn:Hn.
    + destruct (lineStep_newLine st line Hh Hn) as [Hch Hcn].
      split; [done|]; split; [done|].
      intros n Hc Hlt; rewrite Hcn, Hc; by apply increment_exact.
    + by apply lineStep_otherLine.
Qed.

(** Two hunks in ascending order, with a deleted line between added ones. *)
Definition ascendingHunks : jsstring :=
  lit "a/x.ts b/x.ts" ++ [LF] ++
  lit "@@ -1,2 +1,3 @@" ++ [LF] ++
  lit " kept" ++ [LF] ++
  lit "-dropped" ++ [LF] ++
  lit "+new" ++ [LF] ++
  lit "+newer" ++ [LF] ++
  lit "@@ -9,0 +10,1 @@" ++ [LF] ++
  lit "+last".

(** A block as [git diff -U0] writes it: an added line, then a hunk of
    one deleted line whose new start is the line before the deletion, then
    another added line. *)
Definition zeroContextHunks : jsstring :=
  lit "a/x.ts b/x.ts" ++ [LF] ++
  lit "@@ -1,0 +2 @@" ++ [LF] ++
  lit "+two" ++ [LF] ++
  lit "@@ -3 +2,0 @@" ++ [LF] ++
  lit "-gone" ++ [LF] ++
  lit "@@ -9,0 +9 @@" ++ [LF] ++
  lit "+nine".

Lemma parseFileDiff_line_numbers_increase_witness :
  (exists fd, parseFileDiff ascendingHunks = Some fd
              /\ newLineNumbers (changes fd) = map Finite [1; 2; 3; 10]
              /\ StronglySorted ltNumber (newLineNumbers (changes fd)))
  /\ (exists fd, parseFileDiff zeroContextHunks = Some fd
                 /\ newLineNumbers (changes fd) = map Finite [2; 9]
                 /\ StronglySorted ltNumber (newLineNumbers (changes fd))).
Proof.
  split; eexists; (split; [reflexivity|]).
  - split.
    + exact (proj1 (proj1 parseFileDiff_line_numbers_increase ascendingHunks
                      _ eq_refl eq_refl)).
    + exact (proj1 (proj2 (proj1 parseFileDiff_line_numbers_increase
                             ascendingHunks _ eq_refl eq_refl)) eq_refl).
  - split.
    + exact (proj1 (proj1 parseFileDiff_line_numbers_increase zeroContextHunks
                      _ eq_refl eq_refl)).
    + exact (proj1 (proj2 (proj1 parseFileDiff_line_numbers_increase
                             zeroContextHunks _ eq_refl eq_refl)) eq_refl).
Defined.

End GitDiffParserProofs.

(** ** The response parser of the agents *)

Module BaseAgentProofs.

Import BaseAgent.

(** The five properties [isValidFinding] reads. *)
Definition requiredKeys : list jsstring :=
  [lit "type"; lit "severity"; lit "category"; lit "message"; lit "file"].

(** An object whose five required properties are strings. *)
Definition hasStringFields (finding : json) : bool :=
  match finding with
  | JObject ms =>
      forallb (fun k => typeofIsString (lookupMember k ms)) requiredKeys
  | _ => false
  end.

Lemma isValidFinding_hasStringFields (finding : json) :
  isValidFinding finding = hasStringFields finding.
Proof.
  unfold isValidFinding, hasStringFields, requiredKeys.
  destruct finding; simpl; rewrite ?andb_false_r, ?andb_true_r; try done.
  by rewrite !andb_assoc.
Qed.

(** A response whose one candidate has an empty file and an empty message:
    [[{'type':'error','severity':'high','category':'c','message':'','file':''}]],
    each apostrophe standing for a double quote. *)
Definition emptyFieldsResponse : jsstring :=
  litq "[{'type':'error','severity':'high','category':'c','message':'','file':''}]".

(** C7, as stated, fails: a candidate whose file and message are empty
    strings is returned. *)
Lemma empty_file_and_message_are_kept :
  exists finding,
    parseFindings emptyFieldsResponse = [finding]
    /\ getProp finding (lit "file") = Some (JString [])
    /\ getProp finding (lit "message") = Some (JString []).
Proof. eexists; by vm_compute. Qed.

(** C7, amended. Every finding returned by [parseFindings] is an object
    whose [type], [severity], [category], [message] and [file] are strings,
    empty or not; when the bracketed part of the response parses to an
    array, the findings are its elements with these five string properties,
    in order, and the others are discarded. *)
Theorem parseFindings_string_fields (response : jsstring) :
  Forall (fun finding =>
            exists ms t s c m f,
              finding = JObject ms
              /\ getProp finding (lit "type") = Some (JString t)
              /\ getProp finding (lit "severity") = Some (JString s)
              /\ getProp finding (lit "category") = Some (JString c)
              /\ getProp finding (lit "message") = Some (JString m)
              /\ getProp finding (lit "file") = Some (JString f))
         (parseFindings response)
  /\ (forall text candidates,
         jsonMatch response = Some text ->
         JSON_parse text = Some (JArray candidates) ->
         parseFindings response = List.filter hasStringFields candidates).
Proof.
  split.
  - unfold parseFindings.
    destruct (jsonMatch response) as [text|]; [|constructor].
    destruct (JSON_parse text) as [[]|]; try constructor.
    apply List.Forall_forall; intros finding [_ Hv]%List.filter_In.
    rewrite isValidFinding_hasStringFields in Hv.
    destruct finding as [| | | | |ms]; try done; simpl in Hv.
    repeat (apply andb_prop in Hv as [? Hv]).
    repeat match goal with
           | H : typeofIsString ?o = true |- _ =>
               destruct o as [[]|] eqn:?; try done; clear H
           end.
    by repeat eexists.
  - intros text candidates Hm Hp; unfold parseFindings; rewrite Hm, Hp.
    apply List.filter_ext, isValidFinding_hasStringFields.
Qed.

End BaseAgentProofs.

(** ** The pipeline *)

Module PipelineProofs.

Import Agents Pipeline.

Local Arguments lit : simpl never.

(** *** Running sequences and handlers *)

Section Running.

Context (env : Env).

Lemma run_bind {A B : Type} (p : Prog A) (f : A -> Prog B) (w : World env) :
  run env (p ≫= f) w =
  match run env p w with
  | (tr, Returned a, w1) =>
      let '(tr', r, w2) := run env (f a) w1 in (tr ++ tr', r, w2)
  | (tr, Raised e, w1) => (tr, Raised e, w1)
  end.
Proof.
  change (p ≫= f) with (bind p f).
  revert w; induction p as [a|e|X ev k IH]; intros w; simpl.
  - by destruct (run env (f a) w) as [[tr r] w2].
  - done.
  - destruct (answer env X ev w) as [x w1]; rewrite IH.
    destruct (run env (k x) w1) as [[tr [a|e]] w2]; [|done].
    by destruct (run env (f a) w2) as [[tr' r] w3].
Qed.

Lemma run_tryCatch {A : Type} (p : Prog A) (h : Thrown -> Prog A)
    (w : World env) :
  run env (tryCatch p h) w =
  match run env p w with
  | (tr, Returned a, w1) => (tr, Returned a, w1)
  | (tr, Raised e, w1) =>
      let '(tr', r, w2) := run env (h e) w1 in (tr ++ tr', r, w2)
  end.
Proof.
  revert w; induction p as [a|e|X ev k IH]; intros w; simpl.
  - done.
  - by destruct (run env (h e) w) as [[tr r] w2].
  - destruct (answer env X ev w) as [x w1]; rewrite IH.
    destruct (run env (k x) w1) as [[tr [a|e]] w2]; [done|].
    by destruct (run env (h e) w2) as [[tr' r] w3].
Qed.

Lemma run_perform {X : Type} (ev : Event X) (w : World env) :
  run env (perform ev) w =
  let '(x, w1) := answer env X ev w in ([Called ev x], Returned x, w1).
Proof. simpl; by destruct (answer env X ev w). Qed.

Lemma run_call {X : Type} (ev : Event (Res X)) (w : World env) :
  run env (call ev) w =
  let '(r, w1) := answer env _ ev w in ([Called ev r], r, w1).
Proof. simpl; by destruct (answer env _ ev w) as [[x|e] w1]. Qed.

Lemma run_mret {A : Type} (a : A) (w : World env) :
  run env (mret a) w = ([], Returned a, w).
Proof. done. Qed.

(** *** What a stage is given and what it hands back *)

(** The findings an agent reports for the outcome of its [try] block. *)
Definition reported (r : Res Analysis) : list AgentFinding :=
  match r with
  | Returned a => allFindings a
  | Raised _ => []
  end.

(** A run of a stage seen in a call: the stage, the context its analysis
    ran on, and how the analysis ended. *)
Definition stageRun (c : Call) : option (Stage * AgentContext * Res Analysis) :=
  match c with
  | Called ev x =>
      match ev in Event X return X -> option _ with
      | RunAnalysis s context => fun r => Some (s, context, r)
      | _ => fun _ => None
      end x
  end.

(** The stage runs of a trace, in order. *)
Definition stageRuns (tr : list Call)
  : list (Stage * AgentContext * Res Analysis) :=
  omap stageRun tr.

(** A [mkdirSync] that threw. *)
Definition mkdirFailed (c : Call) : bool :=
  match c with
  | Called ev x =>
      match ev in Event X return X -> bool with
      | MkdirSync _ => fun r => match r with Raised _ => true | _ => false end
      | _ => fun _ => false
      end x
  end.

(** A [Setup] that threw. *)
Definition setupFailed (c : Call) : bool :=
  match c with
  | Called ev x =>
      match ev in Event X return X -> bool with
      | Setup _ => fun r => match r with Raised _ => true | _ => false end
      | _ => fun _ => false
      end x
  end.

Lemma stageRuns_app (tr1 tr2 : list Call) :
  stageRuns (tr1 ++ tr2) = stageRuns tr1 ++ stageRuns tr2.
Proof. apply omap_app. Qed.

(** [analyze] reads the clock, runs the analysis, reads the clock again
    and returns a result whatever the analysis did. *)
Lemma run_analyze (s : Stage) (context : AgentContext) (w : World env) :
  exists t0 r t1 w',
    run env (analyze s context) w =
      ([Called DateNow t0; Called (RunAnalysis s context) r; Called DateNow t1],
       Returned {| agentName := getAgentName s;
                   findings := reported r;
                   executionTime := (t1 - t0)%Z;
                   tokenUsage := match r with
                                 | Returned a => usage a
                                 | Raised _ => None
                                 end |},
       w').
Proof.
  unfold analyze; rewrite run_bind, run_perform.
  destruct (answer env Z DateNow w) as [t0 w1].
  rewrite run_tryCatch, run_bind, run_call.
  destruct (answer env _ (RunAnalysis s context) w1) as [[a|e] w2].
  - rewrite run_bind, run_perform.
    destruct (answer env Z DateNow w2) as [t1 w3]; simpl.
    by exists t0, (Returned a), t1, w3.
  - rewrite run_bind, run_perform.
    destruct (answer env Z DateNow w2) as [t1 w3]; simpl.
    by exists t0, (Raised e), t1, w3.
Qed.

(** The findings reported by the runs, in order. *)
Definition reportedBy (runs : list (Stage * AgentContext * Res Analysis))
  : list AgentFinding :=
  concat (map (fun x => reported x.2) runs).

(** The contexts are threaded: each run is given the previous findings
    [seen] so far, and what it reports is added to them for the next. *)
Fixpoint threaded (seen : option (list AgentFinding))
    (runs : list (Stage * AgentContext * Res Analysis)) : Prop :=
  match runs with
  | [] => True
  | (_, context, r) :: rest =>
      previousFindings context = seen
      /\ threaded (Some (default [] seen ++ reported r)) rest
  end.

Lemma threaded_lookup seen runs i s context r :
  threaded seen runs ->
  runs !! i = Some (s, context, r) ->
  previousFindings context
  = match i with
    | O => seen
    | S _ => Some (default [] seen ++ reportedBy (take i runs))
    end.
Proof.
  revert seen i; induction runs as [|[[s' c'] r'] runs IH]; intros seen i;
    [done|].
  intros [Hc Ht]; destruct i as [|i]; simpl.
  - by intros [= -> -> ->].
  - intros Hi; rewrite (IH _ _ Ht Hi); unfold reportedBy; simpl.
    destruct i; simpl; [by rewrite app_nil_r|by rewrite app_assoc].
Qed.

(** The enabled stages, in the order of [execute]. *)
Definition enabledStages (enabled : ByAgent bool) : list Stage :=
  (if codeReview enabled then [CodeReview] else []) ++
  (if security enabled then [Security] else []) ++
  (if performance enabled then [Performance] else []).

(** The findings the runs of stage [s] reported. *)
Definition reportedByStage (s : Stage)
    (runs : list (Stage * AgentContext * Res Analysis)) : list AgentFinding :=
  concat (map (fun x => match s, x.1.1 with
                        | CodeReview, CodeReview
                        | Security, Security
                        | Performance, Performance => reported x.2
                        | _, _ => []
                        end) runs).

Local Opaque analyze.

Lemma run_runStages (diff : GitDiffParser.ParsedDiff) (enabled : ByAgent bool)
    (w : World env) :
  exists tr results w',
    run env (runStages diff enabled) w = (tr, Returned results, w')
    /\ threaded None (stageRuns tr)
    /\ map (fun x => x.1.1) (stageRuns tr) = enabledStages enabled
    /\ existsb mkdirFailed tr = false
    /\ existsb setupFailed tr = false
    /\ findingsOf (codeReview results) = reportedByStage CodeReview (stageRuns tr)
    /\ findingsOf (security results) = reportedByStage Security (stageRuns tr)
    /\ findingsOf (performance results)
       = reportedByStage Performance (stageRuns tr).
Proof.
  unfold runStages, enabledStages.
  destruct enabled as [[] [] []]; simpl;
    repeat first
      [ rewrite run_bind
      | rewrite run_mret
      | match goal with
        | |- context [run env (analyze ?s ?c) ?w0] =>
            destruct (run_analyze s c w0) as (? & ? & ? & ? & ->)
        end
      | progress simpl ];
    do 3 eexists; (split; [reflexivity|]);
    unfold reportedByStage; simpl; rewrite ?app_nil_r; done.
Qed.

Lemma run_outputStep rep dir timestamp outputs format (w : World env) :
  exists tr outputs' w',
    run env (outputStep rep dir timestamp outputs format) w
    = (tr, Returned outputs', w')
    /\ stageRuns tr = [] /\ existsb mkdirFailed tr = false
    /\ existsb setupFailed tr = false.
Proof.
  unfold outputStep; rewrite run_tryCatch.
  repeat case_bool_decide;
    repeat first
      [ rewrite run_bind
      | rewrite run_mret
      | rewrite run_call
      | rewrite run_perform
      | match goal with
        | |- context [answer env ?X ?ev ?w0] =>
            destruct (answer env X ev w0) as [[?|?] ?]
        | |- context [answer env ?X ?ev ?w0] =>
            destruct (answer env X ev w0) as [? ?]
        end
      | progress simpl ];
    by do 3 eexists.
Qed.

Lemma run_outputLoop rep dir timestamp fmts outputs (w : World env) :
  exists tr outputs' w',
    run env (outputLoop rep dir timestamp fmts outputs) w
    = (tr, Returned outputs', w')
    /\ stageRuns tr = [] /\ existsb mkdirFailed tr = false
    /\ existsb setupFailed tr = false.
Proof.
  revert outputs w; induction fmts as [|format fmts IH]; intros outputs w;
    simpl.
  - by do 3 eexists.
  - rewrite run_bind.
    destruct (run_outputStep rep dir timestamp outputs format w)
      as (tr1 & o1 & w1 & -> & Hs1 & Hm1 & Hf1).
    destruct (IH o1 w1) as (tr2 & o2 & w2 & -> & Hs2 & Hm2 & Hf2).
    do 3 eexists; split; [reflexivity|].
    by rewrite stageRuns_app, Hs1, Hs2, !existsb_app, Hm1, Hm2, Hf1, Hf2.
Qed.

Lemma run_generateOutputs rep outputConfig (w : World env) :
  exists tr r w',
    run env (generateOutputs rep outputConfig) w = (tr, r, w')
    /\ stageRuns tr = []
    /\ existsb setupFailed tr = false
    /\ (existsb mkdirFailed tr = false -> exists outs, r = Returned outs).
Proof.
  unfold generateOutputs; rewrite run_bind, run_call.
  destruct (answer env _ (MkdirSync (directory outputConfig)) w)
    as [[[]|e] w1].
  - rewrite run_bind, run_perform.
    destruct (answer env _ ToISOString w1) as [iso w2].
    match goal with
    | |- context [run env (outputLoop ?a ?b ?c ?d ?o) ?w0] =>
        destruct (run_outputLoop a b c d o w0)
          as (tr & outs & w3 & -> & Hs & Hm & Hf)
    end.
    do 3 eexists; split; [reflexivity|]; simpl; repeat split; try done.
    by eexists.
  - by do 3 eexists.
Qed.

Local Opaque runStages generateOutputs.

(** [execute] reads the clock and sets up; when the setup throws it stops
    there, otherwise it runs the stages, reads the clock and the date,
    aggregates and generates the outputs. *)
Lemma run_execute (diff : GitDiffParser.ParsedDiff) (config : PipelineConfig)
    (w : World env) :
  (exists t0 e w',
     run env (execute diff config) w
     = ([Called DateNow t0; Called (Setup (llm config)) (Raised e)],
        Returned {| report := None; outputs := []; success := false;
                    error := Some match e with
                                  | ErrorObject m => m
                                  | ThrownValue => lit "Unknown error"
                                  end |}, w'))
  \/ (exists t0 w1 trS results w2 t1 date trO,
        run env (runStages diff (agents config)) w1
        = (trS, Returned results, w2)
        /\ (fst (fst (run env (execute diff config) w))
            = [Called DateNow t0; Called (Setup (llm config)) (Returned ())]
              ++ trS ++ [Called DateNow t1; Called NewDate date] ++ trO)
        /\ stageRuns trO = []
        /\ existsb setupFailed trO = false
        /\ (existsb mkdirFailed trO = false ->
            exists outs,
              snd (fst (run env (execute diff config) w))
              = Returned
                  {| report := Some (aggregateReport results (t1 - t0)%Z date);
                     outputs := outs; success := true; error := None |})).
Proof.
  unfold execute; rewrite run_bind, run_perform.
  destruct (answer env Z DateNow w) as [t0 w0].
  rewrite run_tryCatch, run_bind, run_call.
  destruct (answer env _ (Setup (llm config)) w0) as [[[]|e] w1].
  - right. rewrite run_bind.
    destruct (run_runStages diff (agents config) w1)
      as (trS & results & w2 & HS & _).
    rewrite HS, run_bind, run_perform.
    destruct (answer env Z DateNow w2) as [t1 w3].
    rewrite run_bind, run_perform.
    destruct (answer env Z NewDate w3) as [date w4].
    rewrite run_bind.
    match goal with
    | |- context [run env (generateOutputs ?a ?b) ?w0] =>
        destruct (run_generateOutputs a b w0)
          as (trO & rO & w5 & -> & Hs & Hf & Hm)
    end.
    exists t0, w1, trS, results, w2, t1, date, trO.
    destruct rO as [outs|e]; simpl; rewrite ?app_nil_r.
    + repeat split; try done.
      intros _; by eexists.
    + repeat split; try done.
      intros Hk; destruct (Hm Hk) as [outs [=]].
  - left; simpl. by exists t0, e, w1.
Qed.

(** C4. In every run of [execute], whatever the environment answers, the
    first stage that runs is given no previous findings, and every later
    one is given exactly the findings reported by the stage runs before
    it, concatenated in the order of execution: nothing of the stage
    itself, nothing of a later stage.  The stages that run are the enabled
    ones in the order code review, security, performance, and none when
    the setup throws. *)
Theorem previous_findings_are_the_earlier_findings
    (diff : GitDiffParser.ParsedDiff) (config : PipelineConfig)
    (w : World env) :
  let tr := fst (fst (run env (execute diff config) w)) in
  (forall i,
      match stageRuns tr !! i with
      | Some (_, context, _) =>
          previousFindings context
          = match i with
            | O => None
            | S _ => Some (reportedBy (take i (stageRuns tr)))
            end
      | None => True
      end)
  /\ map (fun x => x.1.1) (stageRuns tr)
     = if existsb setupFailed tr then [] else enabledStages (agents config).
Proof.
  destruct (run_execute diff config w)
    as [(t0 & e & w' & ->)
       |(t0 & w1 & trS & results & w2 & t1 & date & trO & HS & -> & HO & HF & _)].
  - simpl; split; [by intros []|done].
  - destruct (run_runStages diff (agents config) w1)
      as (trS' & results' & w2' & HS' & Ht & Hm & _ & Hk & _).
    rewrite HS in HS'; injection HS' as <- <- <-.
    cbv zeta; rewrite !existsb_app, !stageRuns_app, HO, Hk, HF; simpl.
    rewrite app_nil_r; split; [|done].
    intros i; destruct (stageRuns trS !! i) as [[[s c] r]|] eqn:E; [|done].
    by rewrite (threaded_lookup None _ _ _ _ _ Ht E).
Qed.

(** C5, amended. Stage isolation.  When the analysis of the security agent raises
    an error, its [analyze] still returns: a result with no findings and,
    as elapsed time, the clock reading taken after the failure minus the
    one taken before the analysis.  And in a run of [execute] whose three
    stages ran, the first and the third analysis returning and the second
    raising an error, and in which creating the output directory did not
    throw, the pipeline ends in success with a report that holds the
    findings of the first and of the third stage and none for the second. *)
Theorem failing_stage_is_isolated :
  (forall (w : World env) context tr res w' e,
      run env (analyze Security context) w = (tr, res, w') ->
      stageRuns tr = [(Security, context, Raised e)] ->
      exists t0 t1,
        tr = [Called DateNow t0;
              Called (RunAnalysis Security context) (Raised e);
              Called DateNow t1]
        /\ res = Returned {| agentName := lit "Security";
                             findings := [];
                             executionTime := (t1 - t0)%Z;
                             tokenUsage := None |})
  /\ (forall (w : World env) diff config tr res w' c1 a1 c2 e c3 a3,
      run env (execute diff config) w = (tr, res, w') ->
      stageRuns tr = [(CodeReview, c1, Returned a1);
                      (Security, c2, Raised e);
                      (Performance, c3, Returned a3)] ->
      existsb mkdirFailed tr = false ->
      exists rep outs,
        res = Returned {| report := Some rep; outputs := outs;
                          success := true; error := None |}
        /\ r_codeReview rep = allFindings a1
        /\ r_security rep = []
        /\ r_performance rep = allFindings a3
        /\ security (byAgent (summary rep)) = 0
        /\ totalFindings (summary rep)
           = N.of_nat (length (allFindings a1) + length (allFindings a3))).
Proof.
  split.
  - intros w context tr res w' e Hrun Hs.
    destruct (run_analyze Security context w) as (t0 & r & t1 & w'' & Hr).
    rewrite Hr in Hrun; injection Hrun as <- <- <-.
    injection Hs as ->. by exists t0, t1.
  - intros w diff config tr res w' c1 a1 c2 e c3 a3 Hrun Hs Hk.
    destruct (run_execute diff config w)
      as [(t0 & e' & w'' & Hr)
         |(t0 & w1 & trS & results & w2 & t1 & date & trO & HS & Ht & HO & _ & Hres)].
    { rewrite Hr in Hrun; injection Hrun as <- <- <-; done. }
    rewrite Hrun in Ht, Hres; cbn [fst snd] in Ht, Hres; subst tr.
    destruct (run_runStages diff (agents config) w1)
      as (trS' & results' & w2' & HS' & _ & _ & _ & _ & H1 & H2 & H3).
    rewrite HS in HS'; injection HS' as <- <- <-.
    rewrite !stageRuns_app, HO, app_nil_r in Hs; simpl in Hs.
    rewrite Hs in H1, H2, H3; unfold reportedByStage in H1, H2, H3;
      simpl in H1, H2, H3; rewrite ?app_nil_r in H1, H3.
    destruct Hres as [outs ->].
    { rewrite !existsb_app in Hk; simpl in Hk.
      by apply orb_false_elim in Hk as [_ Hk]. }
    exists (aggregateReport results (t1 - t0)%Z date), outs.
    unfold aggregateReport; simpl; rewrite H1, H2, H3; simpl.
    by rewrite !length_app.
Qed.

End Running.

(** *** The report *)

(** The four severities the summary counts. *)
Definition knownSeverity (f : AgentFinding) : bool :=
  bool_decide (severity f = lit "critical")
  || bool_decide (severity f = lit "high")
  || bool_decide (severity f = lit "medium")
  || bool_decide (severity f = lit "low").

Lemma severity_buckets (l : list AgentFinding) :
  countSeverity (lit "critical") l + countSeverity (lit "high") l
  + countSeverity (lit "medium") l + countSeverity (lit "low") l
  = N.of_nat (length (List.filter knownSeverity l)).
Proof.
  unfold countSeverity; induction l as [|f l IH]; [done|].
  simpl; unfold knownSeverity at 1.
  repeat case_bool_decide; simpl;
    try (exfalso;
         match goal with
         | H1 : severity f = _, H2 : severity f = _ |- _ =>
             rewrite H1 in H2; vm_compute in H2; discriminate H2
         end);
    lia.
Qed.

Lemma filter_length_all {A : Type} (f : A -> bool) (l : list A) :
  (length (List.filter f l) <= length l)%nat
  /\ (length (List.filter f l) = length l <-> forallb f l = true).
Proof.
  induction l as [|a l [IH1 IH2]]; simpl; [done|].
  destruct (f a); simpl; split; try lia.
  rewrite <- IH2; lia.
Qed.

(** C9. In every aggregated report the total is the sum of the three
    per-agent counts, and each per-agent count is the length of that
    agent's list of findings in the report.  The four severity counts add
    up to the number of findings whose severity is one of critical, high,
    medium, low: never more than the total, and equal to it exactly when no
    finding carries another severity string. *)
Theorem report_summary_counts (results : ByAgent (option AgentResult))
    (executionTime now : Z) :
  let rep := aggregateReport results executionTime now in
  let all := r_codeReview rep ++ r_security rep ++ r_performance rep in
  let bySeverity := critical (summary rep) + high (summary rep)
                    + medium (summary rep) + low (summary rep) in
  totalFindings (summary rep)
  = codeReview (byAgent (summary rep)) + security (byAgent (summary rep))
    + performance (byAgent (summary rep))
  /\ codeReview (byAgent (summary rep)) = N.of_nat (length (r_codeReview rep))
  /\ security (byAgent (summary rep)) = N.of_nat (length (r_security rep))
  /\ performance (byAgent (summary rep))
     = N.of_nat (length (r_performance rep))
  /\ bySeverity = N.of_nat (length (List.filter knownSeverity all))
  /\ bySeverity <= totalFindings (summary rep)
  /\ (bySeverity = totalFindings (summary rep)
      <-> forallb knownSeverity all = true).
Proof.
  unfold aggregateReport; simpl.
  set (all := findingsOf (codeReview results) ++ findingsOf (security results)
              ++ findingsOf (performance results)).
  rewrite severity_buckets.
  destruct (filter_length_all knownSeverity all) as [Hle Hiff].
  repeat split; try done.
  - unfold all; rewrite !length_app; lia.
  - lia.
  - intros H; apply Hiff; lia.
  - intros H; apply Hiff in H; lia.
Qed.

(** A finding of severity [blocker] is in the total and in no severity
    count. *)
Example unknown_severity_is_in_no_bucket :
  let f := {| type := lit "error"; severity := lit "blocker";
              category := lit "c"; message := lit "m"; file := lit "a.ts";
              line := None; suggestion := None; code := None |} in
  let r := {| agentName := lit "Code Review"; findings := [f];
              executionTime := 1; tokenUsage := None |} in
  let rep := aggregateReport
               {| codeReview := Some r; security := None;
                  performance := None |} 1 0 in
  totalFindings (summary rep) = 1
  /\ critical (summary rep) + high (summary rep) + medium (summary rep)
     + low (summary rep) = 0.
Proof. by vm_compute. Qed.

(** *** A run with a failing security stage *)

Definition styleFinding : AgentFinding :=
  {| type := lit "warning"; severity := lit "low"; category := lit "Style";
     message := lit "unused variable"; file := lit "a.ts"; line := Some 3%Z;
     suggestion := None; code := None |}.

Definition loopFinding : AgentFinding :=
  {| type := lit "error"; severity := lit "high"; category := lit "Algorithm";
     message := lit "nested loop"; file := lit "a.ts"; line := Some 9%Z;
     suggestion := Some (lit "use a map"); code := None |}.

Definition codeReviewAnalysis : Analysis :=
  {| allFindings := [styleFinding]; usage := None |}.

Definition performanceAnalysis : Analysis :=
  {| allFindings := [loopFinding]; usage := None |}.

Definition requestFailed : Thrown := ErrorObject (lit "request failed").

(** An environment whose state is its clock: ten milliseconds pass between
    two readings; the code review and the performance analysis return one
    finding each, the security analysis throws, and everything else
    succeeds. *)
Definition scriptedAnswer (X : Type) (ev : Event X) (clock : Z) : X * Z :=
  match ev in Event X return X * Z with
  | DateNow => (clock, clock + 10)%Z
  | NewDate => (clock, clock)
  | ToISOString => (lit "2026-01-01T00:00:00.000Z", clock)
  | Setup _ => (Returned (), clock)
  | RunAnalysis CodeReview _ => (Returned codeReviewAnalysis, clock)
  | RunAnalysis Security _ => (Raised requestFailed, clock)
  | RunAnalysis Performance _ => (Returned performanceAnalysis, clock)
  | MkdirSync _ => (Returned (), clock)
  | Generate _ _ => (Returned (lit "# Code Review Report"), clock)
  | PathJoin dir filename => (dir ++ lit "/" ++ filename, clock)
  | WriteFileSync _ _ => (Returned (), clock)
  end.

Definition scripted : Env := {| World := Z; answer := scriptedAnswer |}.

Definition emptyDiff : GitDiffParser.ParsedDiff :=
  GitDiffParser.processDiff [] None.

Definition allEnabled : PipelineConfig :=
  {| llm := {| provider := lit "openai"; apiKey := lit "sk-test";
               model := None |};
     agents := {| codeReview := true; security := true;
                  performance := true |};
     output := {| formats := [lit "markdown"; lit "html"];
                  directory := lit "./reports" |} |}.

Definition contextWith (previous : option (list AgentFinding)) : AgentContext :=
  {| diff := emptyDiff; previousFindings := previous |}.

(** The contexts of the three stages in that run: nothing, then the finding
    of the code review, then the same, the failed security stage having
    added nothing. *)
Example scripted_stage_runs :
  stageRuns (fst (fst (run scripted (execute emptyDiff allEnabled) 0%Z)))
  = [ (CodeReview, contextWith None, Returned codeReviewAnalysis);
      (Security, contextWith (Some [styleFinding]), Raised requestFailed);
      (Performance, contextWith (Some [styleFinding]),
       Returned performanceAnalysis) ].
Proof. by vm_compute. Qed.

(** The same environment, except that the output directory cannot be
    created. *)
Definition noDirectoryAnswer (X : Type) (ev : Event X) (clock : Z) : X * Z :=
  match ev in Event X return X * Z with
  | MkdirSync _ =>
      (Raised (ErrorObject (lit "EACCES: permission denied, mkdir")), clock)
  | ev' => scriptedAnswer _ ev' clock
  end.

Definition noDirectory : Env := {| World := Z; answer := noDirectoryAnswer |}.

(** C5, as stated, fails: the three stages run, the first and the third
    analysis return and the second raises an error, and yet the pipeline
    ends in failure, without a report, because [mkdirSync] threw. *)
Lemma failing_directory_fails_the_pipeline :
  stageRuns (fst (fst (run noDirectory (execute emptyDiff allEnabled) 0%Z)))
  = [ (CodeReview, contextWith None, Returned codeReviewAnalysis);
      (Security, contextWith (Some [styleFinding]), Raised requestFailed);
      (Performance, contextWith (Some [styleFinding]),
       Returned performanceAnalysis) ]
  /\ snd (fst (run noDirectory (execute emptyDiff allEnabled) 0%Z))
     = Returned {| report := None; outputs := []; success := false;
                   error := Some (lit "EACCES: permission denied, mkdir") |}.
Proof. by vm_compute. Qed.

Lemma failing_stage_is_isolated_witness :
  (exists t0 t1,
      fst (fst (run scripted (analyze Security (contextWith None)) 100%Z))
      = [Called DateNow t0;
         Called (RunAnalysis Security (contextWith None)) (Raised requestFailed);
         Called DateNow t1]
      /\ snd (fst (run scripted (analyze Security (contextWith None)) 100%Z))
         = Returned {| agentName := lit "Security"; findings := [];
                       executionTime := (t1 - t0)%Z; tokenUsage := None |})
  /\ (exists rep outs,
         snd (fst (run scripted (execute emptyDiff allEnabled) 0%Z))
         = Returned {| report := Some rep; outputs := outs; success := true;
                       error := None |}
         /\ r_codeReview rep = [styleFinding]
         /\ r_security rep = []
         /\ r_performance rep = [loopFinding]
         /\ security (byAgent (summary rep)) = 0
         /\ totalFindings (summary rep) = 2).
Proof.
  split.
  - exact (proj1 (failing_stage_is_isolated scripted) 100%Z (contextWith None)
             _ _ _ requestFailed eq_refl eq_refl).
  - exact (proj2 (failing_stage_is_isolated scripted) 0%Z emptyDiff allEnabled
             _ _ _ (contextWith None) codeReviewAnalysis
             (contextWith (Some [styleFinding])) requestFailed
             (contextWith (Some [styleFinding])) performanceAnalysis
             eq_refl eq_refl eq_refl).
Defined.

End PipelineProofs.

(** ** The extractor of checked findings *)

Module ExtractProofs.

Import Extract.

Local Arguments lit : simpl never.

(** *** The field patterns capture non-empty text *)

Lemma search_Some {A : Type} (m : jsstring -> option A) (s : jsstring) (r : A) :
  search m s = Some r -> exists s', m s' = Some r.
Proof.
  induction s as [|c s IH]; simpl.
  - destruct (m []) eqn:E; [|done]. intros [= <-]; eauto.
  - destruct (m (c :: s)) eqn:E; [intros [= <-]; eauto|apply IH].
Qed.

Lemma lazyUntil_nonempty (q : N) (acc s p after : jsstring) :
  lazyUntil q acc s = Some (p, after) -> acc <> [] -> p <> [].
Proof.
  revert acc; induction s as [|c s IH]; intros acc; simpl; [done|].
  destruct (c =? q); [by intros [= <- <-]|].
  destruct (isDot c); [|done].
  intros H _; apply (IH _ H); by destruct acc.
Qed.

Lemma fileMatch_truthy (l p : jsstring) (ln : option jsstring) :
  fileMatch l = Some (p, ln) -> truthy p = true.
Proof.
  intros [s H]%search_Some; unfold fileAt in H.
  destruct (stripPrefix _ s) as [[|c rest]|]; try done.
  destruct (isDot c); [|done].
  destruct (lazyUntil 96 [c] rest) as [[p' after]|] eqn:E; [|done].
  injection H as <- _.
  apply lazyUntil_nonempty in E; [|done]. by destruct p'.
Qed.

Lemma labelAt_truthy (label s g : jsstring) :
  labelAt label s = Some g -> truthy g = true.
Proof.
  unfold labelAt; destruct (stripPrefix label s) as [r|]; [|done].
  destruct (takeWhile isDot r); [done|]. by intros [= <-].
Qed.

Lemma issueMatch_truthy (l g : jsstring) :
  issueMatch l = Some g -> truthy g = true.
Proof. intros [s H]%search_Some; by apply labelAt_truthy in H. Qed.

(** A detail line with a File field, with an Issue field. *)
Definition capturesFile (l : jsstring) : bool :=
  match fileMatch l with Some _ => true | None => false end.

Definition capturesIssue (l : jsstring) : bool :=
  match issueMatch l with Some _ => true | None => false end.

Lemma captureFields_spec (f : ExtractedFinding) (l : jsstring) :
  let f' := captureFields f l in
  severity f' = severity f /\ category f' = category f
  /\ truthy (file f') = capturesFile l || truthy (file f)
  /\ truthy (issue f') = capturesIssue l || truthy (issue f).
Proof.
  unfold captureFields, capturesFile, capturesIssue.
  destruct (fileMatch l) as [[p ln]|] eqn:Ef;
    destruct (issueMatch l) as [g|] eqn:Ei;
    destruct (suggestionMatch l); simpl;
    rewrite ?(fileMatch_truthy _ _ _ Ef), ?(issueMatch_truthy _ _ Ei); done.
Qed.

(** *** The loops end *)

Lemma fenceLoop_done (fuel : nat) (lines : list jsstring) (i : nat)
    (codeLines : list jsstring) :
  (length lines - i < fuel)%nat ->
  exists i' codeLines',
    fenceLoop fuel lines i codeLines = Done (i', codeLines') /\ (i <= i')%nat.
Proof.
  revert i codeLines; induction fuel as [|fuel IH]; intros i codeLines Hf;
    [lia|]; simpl.
  case_bool_decide as Hi; [|by eauto].
  destruct (lookup_lt_is_Some_2 lines i Hi) as [l ->].
  destruct (endsWith fence (trim l)); [by eauto|].
  destruct (IH (S i) (codeLines ++ [stripIndent l])) as (i' & c' & -> & Hle);
    [lia|].
  exists i', c'; split; [done|lia].
Qed.

(** The detail lines of an item: the lines, from line [i] on, to which the
    inner loop applies the field patterns.  It follows the loop: it ends
    where the loop breaks, and passes over what a Code field makes the
    loop pass over. *)
Fixpoint detailLines (fuel : nat) (lines : list jsstring) (i : nat)
  : list jsstring :=
  match fuel with
  | O => []
  | S fuel' =>
      if bool_decide (i < length lines)%nat then
        match lines !! i with
        | None => []
        | Some detailLine =>
            if stopsDetails detailLine (lines !! S i) then []
            else
              detailLine ::
              if includes (lit "- **Code**:") detailLine then
                if match lines !! S i with
                   | Some l => startsWith fence (trim l)
                   | None => false
                   end
                then
                  match fenceLoop fuel' lines (S (S i)) [] with
                  | Done (i1, _) => detailLines fuel' lines (S i1)
                  | _ => []
                  end
                else detailLines fuel' lines (S (S i))
              else detailLines fuel' lines (S i)
        end
      else []
  end.

Lemma detailLoop_spec (fuel : nat) (lines : list jsstring) (i : nat)
    (f : ExtractedFinding) :
  (length lines - i < fuel)%nat ->
  exists i' f',
    detailLoop fuel lines i f = Done (i', f')
    /\ (i <= i')%nat
    /\ severity f' = severity f /\ category f' = category f
    /\ truthy (file f')
       = truthy (file f) || existsb capturesFile (detailLines fuel lines i)
    /\ truthy (issue f')
       = truthy (issue f) || existsb capturesIssue (detailLines fuel lines i).
Proof.
  revert i f; induction fuel as [|fuel IH]; intros i f Hf; [lia|]; simpl.
  case_bool_decide as Hi;
    [|exists i, f; by rewrite !orb_false_r].
  destruct (lookup_lt_is_Some_2 lines i Hi) as [l ->].
  destruct (stopsDetails l (lines !! S i));
    [exists i, f; by rewrite !orb_false_r|].
  destruct (captureFields_spec f l) as (Hs & Hc & Hfile & Hissue).
  assert (forall j g,
             (S i <= j)%nat ->
             severity g = severity (captureFields f l) ->
             category g = category (captureFields f l) ->
             truthy (file g) = truthy (file (captureFields f l)) ->
             truthy (issue g) = truthy (issue (captureFields f l)) ->
             exists i' f',
               detailLoop fuel lines j g = Done (i', f')
               /\ (i <= i')%nat
               /\ severity f' = severity f /\ category f' = category f
               /\ truthy (file f')
                  = truthy (file f)
                    || (capturesFile l
                        || existsb capturesFile (detailLines fuel lines j))
               /\ truthy (issue f')
                  = truthy (issue f)
                    || (capturesIssue l
                        || existsb capturesIssue (detailLines fuel lines j)))
    as Hnext.
  { intros j g Hj Hgs Hgc Hgf Hgi.
    destruct (IH j g) as (i' & f' & -> & Hle & Hs' & Hc' & Hf' & Hi');
      [lia|].
    exists i', f'; repeat split; try lia; try congruence.
    - rewrite Hf', Hgf, Hfile. by destruct (capturesFile l), (truthy (file f)).
    - rewrite Hi', Hgi, Hissue.
      by destruct (capturesIssue l), (truthy (issue f)). }
  destruct (includes (lit "- **Code**:") l);
    [|cbn [existsb]; by apply Hnext].
  destruct (match lines !! S i with
            | Some l0 => startsWith fence (trim l0)
            | None => false
            end); [|cbn [existsb]; apply Hnext; (lia || done)].
  destruct (fenceLoop_done fuel lines (S (S i)) []) as (i1 & cl & -> & Hle);
    [lia|].
  cbn [existsb]; apply Hnext; (lia || done).
Qed.

(** *** More fuel changes nothing *)

Lemma fenceLoop_mono (fuel fuel' : nat) (lines : list jsstring) (i : nat)
    (codeLines : list jsstring) (r : nat * list jsstring) :
  fenceLoop fuel lines i codeLines = Done r -> (fuel <= fuel')%nat ->
  fenceLoop fuel' lines i codeLines = Done r.
Proof.
  revert fuel' i codeLines; induction fuel as [|fuel IH];
    intros [|fuel'] i codeLines; simpl; try done; try lia.
  intros H Hle; repeat case_match; try done.
  apply IH; [done|lia].
Qed.

Lemma detailLoop_mono (fuel fuel' : nat) (lines : list jsstring) (i : nat)
    (f : ExtractedFinding) (r : nat * ExtractedFinding) :
  detailLoop fuel lines i f = Done r -> (fuel <= fuel')%nat ->
  detailLoop fuel' lines i f = Done r.
Proof.
  revert fuel' i f; induction fuel as [|fuel IH];
    intros [|fuel'] i f; simpl; try done; try lia.
  intros H Hle.
  case_bool_decide; [|done].
  destruct (lines !! i) as [l|]; [|done].
  destruct (stopsDetails l (lines !! S i)); [done|].
  destruct (includes (lit "- **Code**:") l); [|apply IH; [done|lia]].
  destruct (match lines !! S i with
            | Some l0 => startsWith fence (trim l0)
            | None => false
            end); [|apply IH; [done|lia]].
  destruct (fenceLoop fuel lines (S (S i)) []) as [[i1 cl]| |] eqn:E;
    try done.
  rewrite (fenceLoop_mono _ fuel' _ _ _ _ E) by lia.
  apply IH; [done|lia].
Qed.

(** *** Items *)

(** A checked item as the scanner goes through it: the line that opens
    it, its detail lines, and the finding when the inner loop is left. *)
Record Item := {
  itemLine : nat;
  fieldLines : list jsstring;
  result : ExtractedFinding;
}.

(** The findings pushed for a sequence of items. *)
Definition emitted (its : list Item) : list ExtractedFinding :=
  map result (List.filter (fun it => hasRequiredFields (result it)) its).

Section WithLowerCase.

Variable toLowerCase : jsstring -> jsstring.

(** The items of a report from line [i] on.  It follows the outer loop:
    an item is opened at every line the loop finds to be a checked item,
    and the loop goes on where the inner loop stopped. *)
Fixpoint scannedItems (fuel : nat) (lines : list jsstring) (i : nat)
  : list Item :=
  match fuel with
  | O => []
  | S fuel' =>
      if bool_decide (i < length lines)%nat then
        match lines !! i with
        | None => []
        | Some line =>
            match checkedMatch line with
            | Some m =>
                match detailLoop fuel' lines (S i) (newFinding toLowerCase m)
                with
                | Done (i', finding) =>
                    {| itemLine := i;
                       fieldLines := detailLines fuel' lines (S i);
                       result := finding |}
                    :: scannedItems fuel' lines i'
                | _ => []
                end
            | None => scannedItems fuel' lines (S i)
            end
        end
      else []
  end.

Lemma extractLoop_spec (fuel : nat) (lines : list jsstring) (i : nat)
    (findings : list ExtractedFinding) :
  (length lines - i < fuel)%nat ->
  extractLoop toLowerCase fuel lines i findings
  = Done (findings ++ emitted (scannedItems fuel lines i)).
Proof.
  revert i findings; induction fuel as [|fuel IH]; intros i findings Hf;
    [lia|]; simpl.
  case_bool_decide as Hi; [|by rewrite app_nil_r].
  destruct (lookup_lt_is_Some_2 lines i Hi) as [l ->].
  destruct (checkedMatch l) as [m|]; [|apply IH; lia].
  destruct (detailLoop_spec fuel lines (S i) (newFinding toLowerCase m))
    as (i' & f' & -> & Hle & _); [lia|].
  rewrite IH by lia; unfold emitted; simpl.
  destruct (hasRequiredFields f'); simpl; [|done].
  by rewrite <- app_assoc.
Qed.

Lemma extractLoop_mono (fuel fuel' : nat) (lines : list jsstring) (i : nat)
    (findings r : list ExtractedFinding) :
  extractLoop toLowerCase fuel lines i findings = Done r ->
  (fuel <= fuel')%nat ->
  extractLoop toLowerCase fuel' lines i findings = Done r.
Proof.
  revert fuel' i findings; induction fuel as [|fuel IH];
    intros [|fuel'] i findings; simpl; try done; try lia.
  intros H Hle.
  case_bool_decide; [|done].
  destruct (lines !! i) as [l|]; [|done].
  destruct (checkedMatch l) as [m|]; [|apply IH; [done|lia]].
  destruct (detailLoop fuel lines (S i) (newFinding toLowerCase m))
    as [[i' f']| |] eqn:E; try done.
  rewrite (detailLoop_mono _ fuel' _ _ _ _ E) by lia.
  apply IH; [done|lia].
Qed.

(** C10. On every text, [extractCheckedFindings] ends and returns a list
    of findings: no loop runs out of the fuel of its model, no line is
    read past the end of the text, and more fuel than one unit per line
    gives the same list. *)
Theorem extractCheckedFindings_total (content : jsstring) :
  exists findings,
    extractCheckedFindings toLowerCase content = Done findings
    /\ forall fuel,
         (length (split_newline content) < fuel)%nat ->
         extractLoop toLowerCase fuel (split_newline content) 0 []
         = Done findings.
Proof.
  unfold extractCheckedFindings; rewrite extractLoop_spec by lia.
  eexists; split; [done|]; intros fuel Hf.
  eapply extractLoop_mono; [apply extractLoop_spec; lia|lia].
Qed.

End WithLowerCase.

(** *** A Code label without a fence *)

(** A checked item [A] that has only a Code label, with no fence after
    it, followed by a complete item [B], checked or not. *)
Definition swallowedChecked : jsstring :=
  lit "- [x] **[HIGH]** A" ++ [LF] ++
  lit "  - **Code**:" ++ [LF] ++
  lit "- [x] **[LOW]** B" ++ [LF] ++
  lit "  - **File**: `b.ts`" ++ [LF] ++
  lit "  - **Issue**: j".

Definition swallowedUnchecked : jsstring :=
  lit "- [x] **[HIGH]** A" ++ [LF] ++
  lit "  - **Code**:" ++ [LF] ++
  lit "- [ ] **[LOW]** B" ++ [LF] ++
  lit "  - **File**: `b.ts`" ++ [LF] ++
  lit "  - **Issue**: j".

(** C6. The code on the failing input.  After a Code label the loop
    moves to the next line to look for a fence and, finding none, moves on
    once more: the line after the label is never examined.  Here that
    line opens item [B], so the details of [A] run on into those of [B]:
    the one finding returned has the severity and category of [A], which
    has no File and no Issue field, and the file and issue of [B]; [B]
    gives no finding of its own when it is checked, and its fields are
    read all the same when it is not. *)
Theorem fenceless_code_label_swallows_the_next_item
    (toLowerCase : jsstring -> jsstring) :
  extractCheckedFindings toLowerCase swallowedChecked
  = Done [ {| severity := toLowerCase (lit "HIGH"); category := lit "A";
              file := lit "b.ts"; line := None; issue := lit "j";
              suggestion := None; code := None |} ]
  /\ extractCheckedFindings toLowerCase swallowedUnchecked
     = Done [ {| severity := toLowerCase (lit "HIGH"); category := lit "A";
                 file := lit "b.ts"; line := None; issue := lit "j";
                 suggestion := None; code := None |} ].
Proof. split; vm_compute; reflexivity. Qed.

(** With a fence after the label the same two items give the finding of
    [B] alone. *)
Example fenced_code_label_keeps_the_items_apart :
  extractCheckedFindings asciiLowerCase
    (lit "- [x] **[HIGH]** A" ++ [LF] ++
     lit "  - **Code**:" ++ [LF] ++
     lit "    ```typescript" ++ [LF] ++
     lit "    f()" ++ [LF] ++
     lit "    ```" ++ [LF] ++
     lit "- [x] **[LOW]** B" ++ [LF] ++
     lit "  - **File**: `b.ts`" ++ [LF] ++
     lit "  - **Issue**: j")
  = Done [ {| severity := lit "low"; category := lit "B";
              file := lit "b.ts"; line := None; issue := lit "j";
              suggestion := None; code := None |} ].
Proof. by vm_compute. Qed.

(** *** Malformed reports *)

(** A checked item whose code fence is never closed, and a checked item
    cut after its File field. *)
Definition unclosedFence : jsstring :=
  lit "- [x] **[HIGH]** Leak" ++ [LF] ++
  lit "  - **File**: `a.ts`:3" ++ [LF] ++
  lit "  - **Issue**: handle is not closed" ++ [LF] ++
  lit "  - **Code**:" ++ [LF] ++
  lit "    ```typescript" ++ [LF] ++
  lit "    open(f)" ++ [LF] ++
  lit "- [x] **[LOW]** Cut" ++ [LF] ++
  lit "  - **File**: `b.ts`".

(** The fence takes the rest of the text, second item included. *)
Example unclosed_fence_is_read_to_the_end :
  extractCheckedFindings asciiLowerCase unclosedFence
  = Done [ {| severity := lit "high"; category := lit "Leak";
              file := lit "a.ts"; line := Some (Finite 3);
              issue := lit "handle is not closed"; suggestion := None;
              code := Some (lit "open(f)" ++ [LF] ++
                            lit "- [x] **[LOW]** Cut" ++ [LF] ++
                            lit "  - **File**: `b.ts`") |} ].
Proof. by vm_compute. Qed.

(** Three items: a complete checked one, a checked one without an Issue
    field, and a complete unchecked one.  Only the first is returned. *)
Definition threeItems : jsstring :=
  lit "## Security Agent" ++ [LF] ++
  lit "- [x] **[CRITICAL]** Injection" ++ [LF] ++
  lit "  - **File**: `db.ts`:40" ++ [LF] ++
  lit "  - **Issue**: query built from input" ++ [LF] ++
  lit "  - **Suggestion**: bind parameters" ++ [LF] ++
  lit "" ++ [LF] ++
  lit "- [x] **[LOW]** Naming" ++ [LF] ++
  lit "  - **File**: `db.ts`" ++ [LF] ++
  lit "- [ ] **[HIGH]** Timing" ++ [LF] ++
  lit "  - **File**: `auth.ts`:7" ++ [LF] ++
  lit "  - **Issue**: comparison is not constant time" ++ [LF].

Example only_complete_checked_items :
  extractCheckedFindings asciiLowerCase threeItems
  = Done [ {| severity := lit "critical"; category := lit "Injection";
              file := lit "db.ts"; line := Some (Finite 40);
              issue := lit "query built from input";
              suggestion := Some (lit "bind parameters"); code := None |} ]
  /\ map (fun it => (itemLine it, length (fieldLines it)))
       (scannedItems asciiLowerCase (S (length (split_newline threeItems)))
          (split_newline threeItems) 0)
     = [(1, 3); (6, 1)]%nat.
Proof. by vm_compute. Qed.

(** The line after a Code label that opens no fence is passed over: here
    the File field is not among the detail lines, and the item is dropped. *)
Example line_after_code_label_is_passed_over :
  let report :=
    lit "- [x] **[HIGH]** Leak" ++ [LF] ++
    lit "  - **Code**:" ++ [LF] ++
    lit "  - **File**: `a.ts`" ++ [LF] ++
    lit "  - **Issue**: handle is not closed" in
  extractCheckedFindings asciiLowerCase report = Done []
  /\ map fieldLines
       (scannedItems asciiLowerCase (S (length (split_newline report)))
          (split_newline report) 0)
     = [[lit "  - **Code**:"; lit "  - **Issue**: handle is not closed"]].
Proof. by vm_compute. Qed.

(** The example of the specification. *)
Example null_check_item :
  extractCheckedFindings asciiLowerCase
    (lit "- [x] **[HIGH]** Null Check" ++ [LF] ++
     lit "- **File**: `a.ts`:12" ++ [LF] ++
     lit "- **Issue**: missing check" ++ [LF])
  = Done [ {| severity := lit "high"; category := lit "Null Check";
              file := lit "a.ts"; line := Some (Finite 12);
              issue := lit "missing check"; suggestion := None;
              code := None |} ].
Proof. by vm_compute. Qed.

End ExtractProofs.

(** * Further properties of the code around the claims *)

(** ** [formatDiffForPrompt] of [src/agents/base-agent.ts] and
       [reconstructFileContent] of the security and performance agents *)

Module DiffConsumers.

Import GitDiffParser.

(** [file.status] in a template literal. *)
Definition statusString (s : FileStatus) : jsstring :=
  match s with
  | added => lit "added"
  | modified => lit "modified"
  | deleted => lit "deleted"
  | renamed => lit "renamed"
  end.

(** The [prefix] of the inner loop of [formatDiffForPrompt]. *)
Definition changePrefix (t : ChangeType) : jsstring :=
  match t with
  | add => lit "+"
  | delete => lit "-"
  | context => lit " "
  end.

(** What the inner loop adds to the prompt for one change, without the
    line feed that ends it. *)
Definition changeText (c : Change) : jsstring :=
  changePrefix (type c) ++ content c.

(** What the outer loop adds to the prompt for one file. *)
Definition formatFile (file : FileDiff) : jsstring :=
  lit "## File: " ++ path file ++ [LF] ++
  lit "Status: " ++ statusString (status file) ++ [LF] ++
  lit "Changes: +" ++ numberToString (additions file) ++
  lit " -" ++ numberToString (deletions file) ++ [LF; LF] ++
  lit "```diff" ++ [LF] ++
  concat (map (fun c => changeText c ++ [LF]) (changes file)) ++
  lit "```" ++ [LF; LF].

(** [formatDiffForPrompt], of the diff of the context. *)
Definition formatDiffForPrompt (diff : ParsedDiff) : jsstring :=
  lit "# Code Changes Summary" ++ [LF; LF] ++ summary diff ++ [LF; LF] ++
  concat (map formatFile (files diff)).

(** [change.type !== "delete"] *)
Definition notDelete (c : Change) : bool :=
  match type c with
  | delete => false
  | add | context => true
  end.

(** [reconstructFileContent] *)
Definition reconstructFileContent (file : FileDiff) : jsstring :=
  join_newline (map content (List.filter notDelete (changes file))).

End DiffConsumers.

(** ** More on the diff parser *)

Module GitDiffParserMore.

Import GitDiffParser GitDiffParserProofs DiffConsumers.

Local Arguments lit : simpl never.

(** *** Strings *)

Lemma endsWith_true (p s : jsstring) :
  endsWith p s = true <-> exists stem, s = stem ++ p.
Proof.
  unfold endsWith; rewrite startsWith_true; split.
  - intros [r Hr]; exists (rev r).
    by rewrite <- (rev_involutive s), Hr, rev_app_distr, rev_involutive.
  - intros [stem ->]; exists (rev stem); by rewrite rev_app_distr.
Qed.

Lemma takeWhile_dropWhile (f : N -> bool) (s : jsstring) :
  takeWhile f s ++ dropWhile f s = s /\ forallb f (takeWhile f s) = true.
Proof.
  induction s as [|c s [IH1 IH2]]; simpl; [done|].
  destruct (f c) eqn:E; simpl; [|done].
  by rewrite IH1, E, IH2.
Qed.

(** *** Supported files *)

(** X1. A file is in the result of [processDiff] exactly when it is the
    parse of one of the blocks of the text and its path ends with one of
    [.ts], [.tsx], [.js], [.jsx]. *)
Theorem processDiff_keeps_supported_files (diffContent : jsstring)
    (summary : option DiffResult) (fd : FileDiff) :
  In fd (files (processDiff diffContent summary))
  <-> (exists block, In block (fileBlocks diffContent)
                     /\ parseFileDiff block = Some fd)
      /\ (exists stem ext, In ext supportedExtensions
                         /\ path fd = stem ++ ext).
Proof.
  assert (files (processDiff diffContent summary)
          = retained (fileBlocks diffContent)) as ->.
  { unfold processDiff; simpl; fold (fileBlocks diffContent).
    by destruct (fileStep_fold (fileBlocks diffContent)
                   {| t_files := []; t_additions := 0; t_deletions := 0 |})
      as (-> & _). }
  unfold retained, isSupportedFile.
  rewrite List.filter_In, List.existsb_exists.
  rewrite <- list_elem_of_In, list_elem_of_omap.
  split; intros [H1 H2]; (split; [destruct H1 as (b & Hb & Hp); exists b|]).
  - by rewrite <- list_elem_of_In.
  - destruct H2 as (ext & He & [stem Hs]%endsWith_true); eauto.
  - by rewrite list_elem_of_In.
  - destruct H2 as (stem & ext & He & Hs); exists ext; split; [done|].
    apply endsWith_true; eauto.
Qed.

(** *** Hunk headers, the converse *)

Lemma rangeSpec_unfold (s : jsstring) :
  rangeSpec s =
  match takeWhile isDigit s with
  | [] => None
  | d :: ds =>
      match dropWhile isDigit s with
      | x :: r => if x =? 44 then Some (d :: ds, dropWhile isDigit r)
                  else Some (d :: ds, x :: r)
      | [] => Some (d :: ds, [])
      end
  end.
Proof.
  unfold rangeSpec; destruct (takeWhile isDigit s); [done|].
  destruct (dropWhile isDigit s) as [|[|p] r]; [done..|].
  do 6 (destruct p as [p|p|]; try done).
Qed.

Lemma rangeSpec_inv (s d rest : jsstring) :
  rangeSpec s = Some (d, rest) ->
  exists count, numeral d = true /\ countOk count = true
                /\ s = d ++ countSuffix count ++ rest.
Proof.
  rewrite rangeSpec_unfold.
  destruct (takeWhile_dropWhile isDigit s) as [Hs Hd].
  destruct (takeWhile isDigit s) as [|c ds] eqn:E; [done|].
  destruct (dropWhile isDigit s) as [|x r] eqn:E2.
  - intros [= <- <-]; exists None; by rewrite <- Hs.
  - destruct (N.eqb_spec x 44) as [->|Hx]; intros [= <- <-].
    + destruct (takeWhile_dropWhile isDigit r) as [Hr Hrd].
      exists (Some (takeWhile isDigit r)); split; [done|]; split; [done|].
      by rewrite <- Hs; simpl; rewrite Hr.
    + exists None; by rewrite <- Hs.
Qed.

(** X2. Only a hunk header resets the running line number: a line for
    which the hunk pattern gives a capture has the shape
    [@@ -a[,b] +c[,d] @@...] with digit strings [a], [c] (not empty) and
    [b], [d], and the capture is [c]. *)
Theorem hunkMatch_only_headers (line newStart : jsstring) :
  hunkMatch line = Some newStart ->
  exists oldStart oldCount newCount tail,
    numeral oldStart = true /\ countOk oldCount = true
    /\ numeral newStart = true /\ countOk newCount = true
    /\ line = hunkHeader oldStart oldCount newStart newCount tail.
Proof.
  unfold hunkMatch, hunkHeader; intros H.
  destruct (stripPrefix (lit "@@ -") line) as [s1|] eqn:E1; [|done].
  apply stripPrefix_Some in E1 as ->; cbv [mbind option_bind] in H.
  destruct (rangeSpec s1) as [[os s2]|] eqn:E2; [|done].
  destruct (stripPrefix (lit " +") s2) as [s3|] eqn:E3; [|done].
  apply stripPrefix_Some in E3 as ->.
  destruct (rangeSpec s3) as [[ns s4]|] eqn:E4; [|done].
  destruct (stripPrefix (lit " @@") s4) as [tail|] eqn:E5; [|done].
  apply stripPrefix_Some in E5 as ->; injection H as ->.
  apply rangeSpec_inv in E2 as (oc & Ho & Hoc & ->).
  apply rangeSpec_inv in E4 as (nc & Hn & Hnc & ->).
  exists os, oc, nc, tail; repeat split; done.
Qed.

Lemma hunkMatch_only_headers_witness :
  exists oldStart oldCount newCount tail,
    numeral oldStart = true /\ countOk oldCount = true
    /\ numeral (lit "40") = true /\ countOk newCount = true
    /\ lit "@@ -3,7 +40,9 @@ class A {"
       = hunkHeader oldStart oldCount (lit "40") newCount tail.
Proof.
  apply (hunkMatch_only_headers (lit "@@ -3,7 +40,9 @@ class A {") (lit "40")).
  reflexivity.
Defined.

(** *** Paths and status *)

Lemma lazySplit_inv (sep acc s g1 g2 : jsstring) :
  lazySplit sep acc s = Some (g1, g2) ->
  exists pre, g1 = acc ++ pre /\ s = pre ++ sep ++ g2 /\ g2 <> [].
Proof.
  revert acc; induction s as [|c s IH]; intros acc; simpl; [done|].
  assert (lazySplit sep (acc ++ [c]) s = Some (g1, g2) ->
          exists pre, g1 = acc ++ pre /\ c :: s = pre ++ sep ++ g2 /\ g2 <> [])
    as Hgo.
  { intros (pre & -> & -> & Hne)%IH; exists (c :: pre).
    by rewrite <- app_assoc. }
  destruct (stripPrefix sep (c :: s)) as [[|d rest]|] eqn:E; try exact Hgo.
  intros [= <- <-]; exists []; rewrite app_nil_r.
  by apply stripPrefix_Some in E as ->.
Qed.

Lemma matchTwoGroups_inv (prefix sep s g1 g2 : jsstring) :
  matchTwoGroups prefix sep s = Some (g1, g2) ->
  s = prefix ++ g1 ++ sep ++ g2
  /\ g1 <> [] /\ g2 <> []
  /\ forallb isDot g1 = true /\ forallb isDot g2 = true.
Proof.
  unfold matchTwoGroups.
  destruct (stripPrefix prefix s) as [[|c rest]|] eqn:E; try done.
  apply stripPrefix_Some in E as ->.
  destruct (forallb isDot (c :: rest)) eqn:Hd; [|done].
  intros (pre & -> & -> & Hne)%lazySplit_inv.
  change (c :: pre ++ sep ++ g2) with ((c :: pre) ++ sep ++ g2) in Hd.
  rewrite !forallb_app in Hd.
  apply andb_prop in Hd as [Hd1 [_ Hd2]%andb_prop].
  by repeat split.
Qed.

(** X3. A parsed file has a non-empty path without line terminators; the
    first line of its block reads [a/<old> b/<path>]; [oldPath] is present
    exactly when [<old>] differs from the path, so it never equals the
    path, is absent from every modified file and present in every renamed
    one; and a block that contains [new file mode] anywhere is added. *)
Theorem parseFileDiff_paths (block : jsstring) (fd : FileDiff) :
  parseFileDiff block = Some fd ->
  path fd <> [] /\ forallb isDot (path fd) = true
  /\ (exists old,
        default [] (head (split_newline block))
        = lit "a/" ++ old ++ lit " b/" ++ path fd
        /\ oldPath fd = if bool_decide (old = path fd) then None else Some old)
  /\ oldPath fd <> Some (path fd)
  /\ (status fd = modified -> oldPath fd = None)
  /\ (status fd = renamed -> exists old, oldPath fd = Some old)
  /\ (includes (lit "new file mode") block = true -> status fd = added).
Proof.
  unfold parseFileDiff, filePathMatch.
  destruct (matchTwoGroups _ _ _) as [[oldP newP]|] eqn:E; [|done].
  apply matchTwoGroups_inv in E as (Hl & _ & Hne & _ & Hd).
  intros [= <-]; simpl.
  split; [done|]; split; [done|]; split; [by exists oldP|].
  case_bool_decide as Heq; simpl.
  - repeat split; try done.
    + by repeat case_match.
    + by intros ->.
  - repeat split; try done.
    + by intros [= ->].
    + by repeat case_match.
    + by eexists.
    + by intros ->.
Qed.

(** A renamed file. *)
Lemma parseFileDiff_paths_witness :
  exists fd,
    parseFileDiff (lit "a/src/old.ts b/src/new.ts" ++ [LF] ++
                   lit "similarity index 100%") = Some fd
    /\ path fd = lit "src/new.ts"
    /\ oldPath fd = Some (lit "src/old.ts")
    /\ status fd = renamed
    /\ oldPath fd <> Some (path fd).
Proof.
  eexists; split; [reflexivity|]; split; [reflexivity|];
    split; [reflexivity|]; split; [reflexivity|].
  refine (proj1 (proj2 (proj2 (proj2
            (parseFileDiff_paths
               (lit "a/src/old.ts b/src/new.ts" ++ [LF] ++
                lit "similarity index 100%") _ eq_refl))))).
Defined.

(** *** The blocks of a text *)

(** [pieces.join(sep)] *)
Fixpoint joinWith (sep : jsstring) (pieces : list jsstring) : jsstring :=
  match pieces with
  | [] => []
  | [p] => p
  | p :: ps => p ++ sep ++ joinWith sep ps
  end.

Lemma splitFileDiffs_nonempty (skip : nat) (bol : bool) (s : jsstring) :
  splitFileDiffs skip bol s <> [].
Proof.
  revert skip bol; induction s as [|c s IH]; intros skip bol; simpl; [done|].
  destruct skip; [|apply IH].
  destruct (bol && startsWith (lit "diff --git ") (c :: s)); [done|].
  by destruct (splitFileDiffs 0 (isLineTerminator c) s).
Qed.

Lemma joinWith_cons_char (sep : jsstring) (c : N) (p : jsstring)
    (ps : list jsstring) :
  joinWith sep ((c :: p) :: ps) = c :: joinWith sep (p :: ps).
Proof. by destruct ps. Qed.

Lemma splitFileDiffs_join (s : jsstring) (skip : nat) (bol : bool) :
  joinWith (lit "diff --git ") (splitFileDiffs skip bol s) = drop skip s.
Proof.
  revert skip bol; induction s as [|c s IH]; intros skip bol; simpl.
  - by destruct skip.
  - destruct skip as [|k]; [|apply IH].
    destruct (bol && startsWith (lit "diff --git ") (c :: s)) eqn:E.
    + apply andb_prop in E as [_ [r Hr]%startsWith_true].
      pose proof (splitFileDiffs_nonempty 10 false s) as Hne.
      pose proof (IH 10%nat false) as IH10.
      destruct (splitFileDiffs 10 false s) as [|p ps]; [done|].
      change (joinWith (lit "diff --git ") ([] :: p :: ps))
        with (lit "diff --git " ++ joinWith (lit "diff --git ") (p :: ps)).
      rewrite IH10, Hr.
      injection Hr as -> ->; done.
    + pose proof (splitFileDiffs_nonempty 0 (isLineTerminator c) s) as Hne.
      pose proof (IH 0%nat (isLineTerminator c)) as IH0.
      destruct (splitFileDiffs 0 (isLineTerminator c) s) as [|p ps]; [done|].
      by rewrite joinWith_cons_char, IH0.
Qed.

(** X4. Splitting a diff text into its blocks loses nothing: the pieces,
    joined by [diff --git ], give the text back; and the blocks handed to
    [parseFileDiff] are the pieces that are not empty. *)
Theorem splitFileDiffs_round_trip (diffContent : jsstring) :
  joinWith (lit "diff --git ") (splitFileDiffs 0 true diffContent)
  = diffContent
  /\ fileBlocks diffContent
     = List.filter (fun p => negb (bool_decide (p = [])))
         (splitFileDiffs 0 true diffContent).
Proof.
  split; [apply splitFileDiffs_join|].
  unfold fileBlocks; apply List.filter_ext; by intros [].
Qed.

(** *** From the parsed changes back to text *)

(** The lines of a block for which the loop of [parseFileDiff] pushes a
    change. *)
Definition isChangeLine (line : jsstring) : bool :=
  match hunkMatch line with
  | Some _ => false
  | None =>
      startsWith (lit "+") line && negb (startsWith (lit "+++") line)
      || startsWith (lit "-") line && negb (startsWith (lit "---") line)
      || startsWith (lit " ") line
  end.

Lemma startsWith_char_drop (c : N) (line : jsstring) :
  startsWith [c] line = true -> c :: drop 1 line = line.
Proof. by intros [r ->]%startsWith_true. Qed.

Lemma lineStep_texts (st : LoopState) (line : jsstring) :
  map changeText (ls_changes (lineStep st line))
  = map changeText (ls_changes st) ++ (if isChangeLine line then [line] else []).
Proof.
  unfold lineStep, isChangeLine.
  destruct (hunkMatch line); simpl; [by rewrite app_nil_r|].
  unfold changeText, changePrefix.
  change (lit "+") with [43]; change (lit "-") with [45];
    change (lit " ") with [32].
  destruct (startsWith [43] line && negb (startsWith (lit "+++") line))
    eqn:Ep; simpl.
  { apply andb_prop in Ep as [Ep _]; rewrite map_app; simpl.
    unfold changeText; simpl.
    by rewrite (startsWith_char_drop 43 line Ep). }
  destruct (startsWith [45] line && negb (startsWith (lit "---") line))
    eqn:Em; simpl.
  { apply andb_prop in Em as [Em _]; rewrite map_app; simpl.
    unfold changeText; simpl.
    by rewrite (startsWith_char_drop 45 line Em). }
  destruct (startsWith [32] line) eqn:Es; simpl.
  { rewrite map_app; simpl; unfold changeText; simpl.
    by rewrite (startsWith_char_drop 32 line Es). }
  by rewrite app_nil_r.
Qed.

Lemma parseLines_texts (lines : list jsstring) (st : LoopState) :
  map changeText (ls_changes (parseLines st lines))
  = map changeText (ls_changes st) ++ List.filter isChangeLine lines.
Proof.
  revert st; induction lines as [|l lines IH]; intros st; simpl.
  - by rewrite app_nil_r.
  - unfold parseLines in *; simpl; rewrite IH, lineStep_texts, <- app_assoc.
    by destruct (isChangeLine l).
Qed.

(** X5. [formatDiffForPrompt] gives the change lines of a parsed file back
    as they stood in its block: marker and content of each change, in
    order, are the lines of the block for which the parser pushed a
    change; hunk headers, the [+++] and [---] lines and everything else
    are left out. *)
Theorem formatFile_gives_the_change_lines_back (block : jsstring)
    (fd : FileDiff) :
  parseFileDiff block = Some fd ->
  map changeText (changes fd)
  = List.filter isChangeLine (split_newline block)
  /\ formatFile fd
     = lit "## File: " ++ path fd ++ [LF] ++
       lit "Status: " ++ statusString (status fd) ++ [LF] ++
       lit "Changes: +" ++ numberToString (additions fd) ++
       lit " -" ++ numberToString (deletions fd) ++ [LF; LF] ++
       lit "```diff" ++ [LF] ++
       concat (map (fun l => l ++ [LF])
                 (List.filter isChangeLine (split_newline block))) ++
       lit "```" ++ [LF; LF].
Proof.
  intros Hp.
  assert (map changeText (changes fd)
          = List.filter isChangeLine (split_newline block)) as Ht.
  { revert Hp; unfold parseFileDiff.
    destruct (filePathMatch _) as [[oldP newP]|]; [|done].
    intros [= <-]; simpl. by rewrite parseLines_texts. }
  split; [done|].
  unfold formatFile; rewrite <- Ht, map_map; done.
Qed.

Lemma formatFile_gives_the_change_lines_back_witness :
  exists fd,
    parseFileDiff ascendingHunks = Some fd
    /\ map changeText (changes fd)
       = [lit " kept"; lit "-dropped"; lit "+new"; lit "+newer"; lit "+last"].
Proof.
  eexists; split; [reflexivity|].
  exact (proj1 (formatFile_gives_the_change_lines_back ascendingHunks _
                  eq_refl)).
Defined.

(** *** The text handed to the linter and to the AST parser *)

Definition noLF (l : jsstring) : bool := forallb (fun c => negb (c =? LF)) l.

Lemma split_newline_noLF (s : jsstring) :
  Forall (fun l => noLF l = true) (split_newline s).
Proof.
  induction s as [|c s IH]; simpl; [by repeat constructor|].
  destruct (c =? LF) eqn:E; [by constructor|].
  destruct (split_newline s) as [|l ls]; [by repeat constructor; simpl; rewrite E|].
  inversion_clear IH as [|? ? Hl Hls]; constructor; [|done].
  by simpl; rewrite E.
Qed.

Lemma split_newline_line (p r : jsstring) :
  noLF p = true ->
  split_newline p = [p]
  /\ split_newline (p ++ LF :: r) = p :: split_newline r.
Proof.
  induction p as [|c p IH]; simpl.
  - by intros _.
  - intros [Hc Hp]%andb_prop; apply negb_true_iff in Hc; rewrite Hc.
    destruct (IH Hp) as [-> ->]; done.
Qed.

Lemma split_join_newline (ls : list jsstring) :
  ls <> [] -> Forall (fun l => noLF l = true) ls ->
  split_newline (join_newline ls) = ls.
Proof.
  induction ls as [|p [|q ls] IH]; [done| |]; intros _ Hall.
  - inversion_clear Hall as [|? ? Hp _]; simpl.
    by apply split_newline_line.
  - inversion_clear Hall as [|? ? Hp Hall'].
    change (join_newline (p :: q :: ls)) with (p ++ LF :: join_newline (q :: ls)).
    destruct (split_newline_line p (join_newline (q :: ls)) Hp) as [_ ->].
    by rewrite IH.
Qed.

Lemma parseLines_noLF (lines : list jsstring) (st : LoopState) :
  Forall (fun l => noLF l = true) lines ->
  Forall (fun c => noLF (content c) = true) (ls_changes st) ->
  Forall (fun c => noLF (content c) = true)
    (ls_changes (parseLines st lines)).
Proof.
  revert st; induction lines as [|l lines IH]; intros st Hl Hst; [done|].
  inversion_clear Hl as [|? ? Hl1 Hl2].
  apply IH; [done|].
  assert (noLF (drop 1 l) = true) as Hd by (destruct l; [done|];
    by apply andb_prop in Hl1 as [_ ?]).
  unfold lineStep; repeat case_match; simpl; try done;
    apply Forall_app; split; try done; by repeat constructor.
Qed.

(** X6. The text that [reconstructFileContent] builds from a parsed file
    has exactly one line per change that is not a deletion, in order, each
    the content of that change: splitting it at line feeds gives these
    contents back.  When there is no such change the text is empty. *)
Theorem reconstructFileContent_lines (block : jsstring) (fd : FileDiff) :
  parseFileDiff block = Some fd ->
  let kept := map content (List.filter notDelete (changes fd)) in
  split_newline (reconstructFileContent fd)
  = match kept with [] => [[]] | _ => kept end
  /\ (kept = [] -> reconstructFileContent fd = []).
Proof.
  intros Hp kept; unfold reconstructFileContent; fold kept.
  split; [|by intros ->].
  destruct kept as [|k ks] eqn:Ek; [done|]; rewrite <- Ek.
  apply split_join_newline; [by rewrite Ek|].
  revert Hp; unfold parseFileDiff.
  destruct (filePathMatch _) as [[oldP newP]|]; [|done].
  intros [= <-]; simpl in *; subst kept.
  pose proof (parseLines_noLF (split_newline block) initialState
                (split_newline_noLF block) (Forall_nil _)) as Hall.
  clear Ek; induction Hall as [|c cs Hc Hcs IH]; simpl; [done|].
  destruct (notDelete c); simpl; [by constructor|done].
Qed.

Lemma reconstructFileContent_lines_witness :
  exists fd,
    parseFileDiff ascendingHunks = Some fd
    /\ split_newline (reconstructFileContent fd)
       = [lit "kept"; lit "new"; lit "newer"; lit "last"].
Proof.
  eexists; split; [reflexivity|].
  exact (proj1 (reconstructFileContent_lines ascendingHunks _ eq_refl)).
Defined.

(** *** Nothing to analyse *)

(** X7. When no block of the text parses to a file with a supported
    extension (an empty text, a text without file header, a diff of other
    files), the result without statistical summary is the empty diff:
    no files, totals zero, and the summary
    [0 files changed, 0 insertions(+), 0 deletions(-)]. *)
Theorem processDiff_nothing_retained (diffContent : jsstring) :
  retained (fileBlocks diffContent) = [] ->
  processDiff diffContent None
  = {| files := []; totalAdditions := 0; totalDeletions := 0;
       summary := lit "0 files changed, 0 insertions(+), 0 deletions(-)" |}.
Proof.
  intros Hr; unfold processDiff; fold (fileBlocks diffContent).
  destruct (fileStep_fold (fileBlocks diffContent)
              {| t_files := []; t_additions := 0; t_deletions := 0 |})
    as (Hf & Ha & Hd).
  simpl in *; rewrite Hr in *; simpl in *.
  cbv zeta; rewrite Hf, Ha, Hd; done.
Qed.

(** A diff that touches a Markdown file only. *)
Lemma processDiff_nothing_retained_witness :
  processDiff (lit "diff --git a/README.md b/README.md" ++ [LF] ++
               lit "@@ -1 +1,2 @@" ++ [LF] ++ lit " # Title" ++ [LF] ++
               lit "+More") None
  = {| files := []; totalAdditions := 0; totalDeletions := 0;
       summary := lit "0 files changed, 0 insertions(+), 0 deletions(-)" |}.
Proof.
  apply processDiff_nothing_retained; reflexivity.
Defined.

End GitDiffParserMore.

(** ** [validateConfig] of [src/config/default.ts] *)

Module Config.

Import Pipeline.

(** [validateConfig]: it returns or throws an [Error]. *)
Definition validateConfig (config : PipelineConfig) : Res unit :=
  if negb (truthy (apiKey (llm config))) then
    Raised (ErrorObject (lit
      "API key is required. Set OPENAI_API_KEY in .env file or pass --api-key flag"))
  else if bool_decide (length (formats (output config)) = 0%nat) then
    Raised (ErrorObject (lit "At least one output format must be specified"))
  else
    let enabledAgents :=
      length (List.filter (fun enabled : bool => enabled)
                [codeReview (agents config); security (agents config);
                 performance (agents config)]) in
    if bool_decide (enabledAgents = 0%nat) then
      Raised (ErrorObject (lit "At least one agent must be enabled"))
    else Returned ().

End Config.

(** ** More on the pipeline *)

Module PipelineMore.

Import Agents Pipeline PipelineProofs Config.

Local Arguments lit : simpl never.
Local Opaque analyze runStages generateOutputs.

(** The path of a write that succeeded. *)
Definition writtenPath (c : Call) : option jsstring :=
  match c with
  | Called ev x =>
      match ev in Event X return X -> option jsstring with
      | WriteFileSync filepath _ =>
          fun r => match r with Returned _ => Some filepath | Raised _ => None end
      | _ => fun _ => None
      end x
  end.

(** The paths of the writes of a trace that succeeded, in order. *)
Definition writtenPaths (tr : list Call) : list jsstring := omap writtenPath tr.

(** The formats [generateOutputs] knows. *)
Definition knownFormat (format : jsstring) : bool :=
  bool_decide (format = lit "markdown") || bool_decide (format = lit "html").

Section Running.

Context (env : Env).

Lemma run_outputStep_written rep dir timestamp outputs format (w : World env) :
  exists tr outputs' w',
    run env (outputStep rep dir timestamp outputs format) w
    = (tr, Returned outputs', w')
    /\ map o_path outputs' = map o_path outputs ++ writtenPaths tr
    /\ (Forall (fun o => knownFormat (o_format o) = true) outputs ->
        Forall (fun o => knownFormat (o_format o) = true) outputs')
    /\ (length outputs'
        <= length outputs + if knownFormat format then 1 else 0)%nat
    /\ existsb mkdirFailed tr = false.
Proof.
  unfold outputStep, knownFormat; rewrite run_tryCatch.
  repeat case_bool_decide;
    repeat first
      [ rewrite run_bind
      | rewrite run_mret
      | rewrite run_call
      | rewrite run_perform
      | match goal with
        | |- context [answer env ?X ?ev ?w0] =>
            destruct (answer env X ev w0) as [[?|?] ?]
        | |- context [answer env ?X ?ev ?w0] =>
            destruct (answer env X ev w0) as [? ?]
        end
      | progress simpl ];
    do 3 eexists; (split; [reflexivity|]); simpl;
    rewrite ?app_nil_r, ?map_app, ?length_app; simpl;
    (split; [done|]); (split; [|split; [lia|done]]);
    try done;
    intros Hall; apply Forall_app; split; try done;
    repeat constructor; simpl; subst; by repeat case_bool_decide.
Qed.

Lemma run_outputLoop_written rep dir timestamp fmts outputs (w : World env) :
  exists tr outputs' w',
    run env (outputLoop rep dir timestamp fmts outputs) w
    = (tr, Returned outputs', w')
    /\ map o_path outputs' = map o_path outputs ++ writtenPaths tr
    /\ (Forall (fun o => knownFormat (o_format o) = true) outputs ->
        Forall (fun o => knownFormat (o_format o) = true) outputs')
    /\ (length outputs'
        <= length outputs + length (List.filter knownFormat fmts))%nat
    /\ existsb mkdirFailed tr = false.
Proof.
  revert outputs w; induction fmts as [|format fmts IH]; intros outputs w;
    simpl.
  - do 3 eexists; split; [reflexivity|]; simpl.
    rewrite app_nil_r; repeat split; (done || lia).
  - rewrite run_bind.
    destruct (run_outputStep_written rep dir timestamp outputs format w)
      as (tr1 & o1 & w1 & -> & Hp1 & Hf1 & Hl1 & Hm1).
    destruct (IH o1 w1) as (tr2 & o2 & w2 & -> & Hp2 & Hf2 & Hl2 & Hm2).
    do 3 eexists; split; [reflexivity|].
    unfold writtenPaths in *; rewrite omap_app, existsb_app, Hm1, Hm2.
    rewrite Hp2, Hp1, <- app_assoc.
    repeat split; try done; [by auto|].
    destruct (knownFormat format); simpl; lia.
Qed.

Local Transparent generateOutputs.

Lemma run_generateOutputs_written (rep : Report) (outputConfig : OutputConfig)
    (w : World env) :
  exists tr r w',
    run env (generateOutputs rep outputConfig) w = (tr, r, w')
    /\ stageRuns tr = [] /\ existsb setupFailed tr = false
    /\ match r with
       | Returned outs =>
           map o_path outs = writtenPaths tr
           /\ Forall (fun o => knownFormat (o_format o) = true) outs
           /\ (length outs
               <= length (List.filter knownFormat (formats outputConfig)))%nat
           /\ existsb mkdirFailed tr = false
       | Raised _ => writtenPaths tr = [] /\ existsb mkdirFailed tr = true
       end.
Proof.
  unfold generateOutputs; rewrite run_bind, run_call.
  destruct (answer env _ (MkdirSync (directory outputConfig)) w)
    as [[[]|e] w1]; [|by do 3 eexists].
  rewrite run_bind, run_perform.
  destruct (answer env _ ToISOString w1) as [iso w2].
  match goal with
  | |- context [run env (outputLoop ?a ?b ?c ?d ?o) ?w0] =>
      destruct (run_outputLoop_written a b c d o w0)
        as (tr & outs & w3 & Hrun & Hp & Hf & Hl & Hm);
      destruct (run_outputLoop env a b c d o w0)
        as (tr' & outs' & w3' & Hrun' & Hs & _ & Hsf)
  end.
  rewrite Hrun in Hrun'; injection Hrun' as <- <- <-; rewrite Hrun.
  do 3 eexists; split; [reflexivity|]; simpl in *.
  repeat split; [done..|by apply Hf|lia|done].
Qed.

(** X8. What [generateOutputs] returns is what it wrote: the paths of the
    outputs are the paths of the writes that succeeded, in order; every
    output has format [markdown] or [html], and there are no more outputs
    than such entries in the configured formats.  When it throws, the
    directory could not be created and nothing was written. *)
Theorem generateOutputs_reports_what_it_wrote (rep : Report)
    (outputConfig : OutputConfig) (w : World env) :
  match snd (fst (run env (generateOutputs rep outputConfig) w)) with
  | Returned outs =>
      map o_path outs
      = writtenPaths (fst (fst (run env (generateOutputs rep outputConfig) w)))
      /\ Forall (fun o => knownFormat (o_format o) = true) outs
      /\ (length outs
          <= length (List.filter knownFormat (formats outputConfig)))%nat
  | Raised _ =>
      writtenPaths (fst (fst (run env (generateOutputs rep outputConfig) w)))
      = []
      /\ existsb mkdirFailed
           (fst (fst (run env (generateOutputs rep outputConfig) w))) = true
  end.
Proof.
  destruct (run_generateOutputs_written rep outputConfig w)
    as (tr & r & w' & -> & _ & _ & H); simpl.
  destruct r; [by destruct H as (? & ? & ? & _)|done].
Qed.

Local Opaque generateOutputs.
Local Transparent runStages.

(** The three lists of the results are what the stage runs reported, and
    side by side they are the reports of all runs in order. *)
Lemma run_runStages_reported (diff : GitDiffParser.ParsedDiff)
    (enabled : ByAgent bool) (w : World env) :
  exists tr results w',
    run env (runStages diff enabled) w = (tr, Returned results, w')
    /\ findingsOf (codeReview results) ++ findingsOf (security results)
       ++ findingsOf (performance results) = reportedBy (stageRuns tr)
    /\ (Forall (fun x => match x.2 with Raised _ => True | _ => False end)
          (stageRuns tr) ->
        totalTokensOf (codeReview results) = None
        /\ totalTokensOf (security results) = None
        /\ totalTokensOf (performance results) = None).
Proof.
  unfold runStages.
  destruct enabled as [[] [] []]; simpl;
    repeat first
      [ rewrite run_bind
      | rewrite run_mret
      | match goal with
        | |- context [run env (analyze ?s ?c) ?w0] =>
            destruct (run_analyze env s c w0) as (? & ? & ? & ? & ->)
        end
      | progress simpl ];
    do 3 eexists; (split; [reflexivity|]);
    unfold reportedBy; simpl; rewrite ?app_nil_r;
    (split; [done|]);
    intros Hall;
    repeat match goal with
           | H : Forall _ (_ :: _) |- _ =>
               inversion_clear H
           end;
    simpl in *;
    repeat match goal with
           | r : Res Analysis |- _ => destruct r; try done
           end;
    done.
Qed.

Local Opaque runStages.

Local Transparent execute.

(** The two ways a run of [execute] goes: the setup throws, or the stages
    run, the report is aggregated and the outputs are generated. *)
Lemma run_execute_full (diff : GitDiffParser.ParsedDiff)
    (config : PipelineConfig) (w : World env) :
  (exists t0 e w',
     run env (execute diff config) w
     = ([Called DateNow t0; Called (Setup (llm config)) (Raised e)],
        Returned {| report := None; outputs := []; success := false;
                    error := Some match e with
                                  | ErrorObject m => m
                                  | ThrownValue => lit "Unknown error"
                                  end |}, w'))
  \/ (exists t0 w1 trS results w2 t1 date w4 trO rO w',
        run env (runStages diff (agents config)) w1
        = (trS, Returned results, w2)
        /\ run env (generateOutputs
                      (aggregateReport results (t1 - t0)%Z date)
                      (output config)) w4
           = (trO, rO, w')
        /\ run env (execute diff config) w
           = ([Called DateNow t0; Called (Setup (llm config)) (Returned ())]
                ++ trS ++ [Called DateNow t1; Called NewDate date] ++ trO,
              Returned
                match rO with
                | Returned outs =>
                    {| report := Some (aggregateReport results (t1 - t0)%Z date);
                       outputs := outs; success := true; error := None |}
                | Raised e =>
                    {| report := None; outputs := []; success := false;
                       error := Some match e with
                                     | ErrorObject m => m
                                     | ThrownValue => lit "Unknown error"
                                     end |}
                end, w')).
Proof.
  unfold execute; rewrite run_bind, run_perform.
  destruct (answer env Z DateNow w) as [t0 w0].
  rewrite run_tryCatch, run_bind, run_call.
  destruct (answer env _ (Setup (llm config)) w0) as [[[]|e] w1].
  - right. rewrite run_bind.
    destruct (run_runStages env diff (agents config) w1)
      as (trS & results & w2 & HS & _).
    rewrite HS, run_bind, run_perform.
    destruct (answer env Z DateNow w2) as [t1 w3].
    rewrite run_bind, run_perform.
    destruct (answer env Z NewDate w3) as [date w4].
    rewrite run_bind.
    destruct (run env (generateOutputs
                         (aggregateReport results (t1 - t0)%Z date)
                         (output config)) w4) as [[trO rO] w5] eqn:EO.
    exists t0, w1, trS, results, w2, t1, date, w4, trO, rO, w5.
    split; [done|]; split; [done|].
    destruct rO as [outs|e]; simpl; by rewrite ?app_nil_r.
  - left; simpl. by exists t0, e, w1.
Qed.

Local Opaque execute.

(** X9. [execute] never throws.  Its result is one of two kinds: success,
    with a report and no error message, or failure, with an error
    message, no report and no outputs; and it is a failure exactly when
    the setup or the creation of the output directory threw. *)
Theorem execute_always_returns (diff : GitDiffParser.ParsedDiff)
    (config : PipelineConfig) (w : World env) :
  let tr := fst (fst (run env (execute diff config) w)) in
  exists pr,
    snd (fst (run env (execute diff config) w)) = Returned pr
    /\ success pr = negb (existsb setupFailed tr || existsb mkdirFailed tr)
    /\ (if success pr
        then (exists rep, report pr = Some rep) /\ error pr = None
        else report pr = None /\ outputs pr = []
             /\ exists message, error pr = Some message).
Proof.
  destruct (run_execute_full diff config w)
    as [(t0 & e & w' & ->)
       |(t0 & w1 & trS & results & w2 & t1 & date & w4 & trO & rO & w' & HS & HO
         & ->)];
    simpl.
  - eexists; split; [reflexivity|]; simpl; repeat split; by eexists.
  - destruct (run_runStages env diff (agents config) w1)
      as (trS' & results' & w2' & HS' & _ & _ & Hm & Hf & _).
    rewrite HS in HS'; injection HS' as <- <- <-.
    destruct (run_generateOutputs_written
                (aggregateReport results (t1 - t0)%Z date) (output config) w4)
      as (trO' & rO' & w'' & HO' & _ & HOf & HOr).
    rewrite HO in HO'; injection HO' as <- <- <-.
    eexists; split; [reflexivity|].
    rewrite !existsb_app, Hm, Hf; simpl; rewrite HOf.
    destruct rO as [outs|e]; simpl.
    + destruct HOr as (_ & _ & _ & ->); repeat split; by eexists.
    + destruct HOr as [_ ->]; repeat split; by eexists.
Qed.

(** X10. In a run of [execute] that ends in success, each list of
    findings of the report is what the runs of that stage reported, the
    three lists side by side are what all stage runs reported in the
    order of execution, and the total of the summary is their number;
    when every analysis threw, the report has no finding and no token
    usage. *)
Theorem report_holds_what_the_stages_reported
    (diff : GitDiffParser.ParsedDiff) (config : PipelineConfig)
    (w : World env) :
  let tr := fst (fst (run env (execute diff config) w)) in
  match snd (fst (run env (execute diff config) w)) with
  | Returned {| report := Some rep |} =>
      r_codeReview rep = reportedByStage CodeReview (stageRuns tr)
      /\ r_security rep = reportedByStage Security (stageRuns tr)
      /\ r_performance rep = reportedByStage Performance (stageRuns tr)
      /\ r_codeReview rep ++ r_security rep ++ r_performance rep
         = reportedBy (stageRuns tr)
      /\ totalFindings (summary rep)
         = N.of_nat (length (reportedBy (stageRuns tr)))
      /\ (Forall (fun x => match x.2 with Raised _ => True | _ => False end)
            (stageRuns tr) ->
          totalFindings (summary rep) = 0 /\ r_tokenUsage rep = None)
  | _ => True
  end.
Proof.
  destruct (run_execute_full diff config w)
    as [(t0 & e & w' & ->)
       |(t0 & w1 & trS & results & w2 & t1 & date & w4 & trO & rO & w' & HS & HO
         & ->)];
    simpl; [done|].
  destruct rO as [outs|e]; [|done].
  destruct (run_runStages_reported diff (agents config) w1)
    as (trS' & results' & w2' & HS' & Hrep & Hall).
  rewrite HS in HS'; injection HS' as <- <- <-.
  destruct (run_runStages env diff (agents config) w1)
    as (trS' & results' & w2' & HS' & _ & _ & _ & _ & H1 & H2 & H3).
  rewrite HS in HS'; injection HS' as <- <- <-.
  destruct (run_generateOutputs_written
              (aggregateReport results (t1 - t0)%Z date) (output config) w4)
    as (trO' & rO' & w'' & HO' & HOs & _).
  rewrite HO in HO'; injection HO' as <- <- <-.
  rewrite stageRuns_app.
  change (stageRuns (Called DateNow t1 :: Called NewDate date :: trO))
    with (stageRuns trO).
  rewrite HOs, app_nil_r.
  unfold aggregateReport; cbn [r_codeReview r_security r_performance summary
                               totalFindings r_tokenUsage].
  rewrite Hrep.
  do 5 (split; [done|]).
  intros Hf; split.
  - clear -Hf.
    assert (reportedBy (stageRuns trS) = []) as ->; [|done].
    unfold reportedBy.
    induction Hf as [|[[s c] r] l Hr _ IH]; [done|].
    simpl in *; rewrite IH; by destruct r.
  - by destruct (Hall Hf) as (-> & -> & ->).
Qed.

(** What [validateConfig] accepts. *)
Lemma validateConfig_Returned (config : PipelineConfig) :
  validateConfig config = Returned () <->
  apiKey (llm config) <> [] /\ formats (output config) <> []
  /\ enabledStages (agents config) <> [].
Proof.
  unfold validateConfig, enabledStages.
  destruct (apiKey (llm config)) as [|c k]; simpl;
    [by split; [|intros (? & ? & ?)]|].
  destruct (formats (output config)) as [|f fs]; simpl;
    [by split; [|intros (? & ? & ?)]|].
  destruct (agents config) as [[] [] []]; simpl;
    by split; [|intros (? & ? & ?)].
Qed.

(** X11. A configuration that [validateConfig] accepts has an API key and
    an output format, and [execute] on it runs at least one analysis
    unless the setup throws: the stages that run are the enabled ones, and
    the first of them is given no previous findings. *)
Theorem accepted_config_runs_a_stage (diff : GitDiffParser.ParsedDiff)
    (config : PipelineConfig) (w : World env)
    (Hvalid : validateConfig config = Returned ()) :
  let tr := fst (fst (run env (execute diff config) w)) in
  apiKey (llm config) <> [] /\ formats (output config) <> []
  /\ (existsb setupFailed tr = false ->
      map (fun x => x.1.1) (stageRuns tr) = enabledStages (agents config)
      /\ exists s context r runs,
           stageRuns tr = (s, context, r) :: runs
           /\ previousFindings context = None).
Proof.
  apply validateConfig_Returned in Hvalid as (Hk & Hf & He).
  do 2 (split; [done|]).
  destruct (run_execute_full diff config w)
    as [(t0 & e & w' & ->)
       |(t0 & w1 & trS & results & w2 & t1 & date & w4 & trO & rO & w' & HS & HO
         & ->)];
    simpl; [done|intros _].
  destruct (run_runStages env diff (agents config) w1)
    as (trS' & results' & w2' & HS' & Ht & Hs & _).
  rewrite HS in HS'; injection HS' as <- <- <-.
  destruct (run_generateOutputs_written
              (aggregateReport results (t1 - t0)%Z date) (output config) w4)
    as (trO' & rO' & w'' & HO' & HOs & _).
  rewrite HO in HO'; injection HO' as <- <- <-.
  rewrite stageRuns_app.
  change (stageRuns (Called DateNow t1 :: Called NewDate date :: trO))
    with (stageRuns trO).
  rewrite HOs, app_nil_r; split; [done|].
  destruct (stageRuns trS) as [|[[s c] r] runs]; [by rewrite <- Hs in He|].
  exists s, c, r, runs; split; [done|].
  by destruct Ht as [-> _].
Qed.

End Running.

Lemma accepted_config_runs_a_stage_witness :
  validateConfig allEnabled = Returned ()
  /\ map (fun x => x.1.1)
       (stageRuns (fst (fst (run scripted (execute emptyDiff allEnabled) 0%Z))))
     = [CodeReview; Security; Performance].
Proof.
  refine (conj eq_refl _).
  exact (proj1 (proj2 (proj2 (accepted_config_runs_a_stage scripted emptyDiff
                                 allEnabled 0%Z eq_refl)) eq_refl)).
Defined.

End PipelineMore.

(** ** More on the extractor *)

Module ExtractMore.

Import Extract ExtractProofs.

Local Arguments lit : simpl never.

(** The carriage return of a line ending CR LF. *)
Definition CR : N := 13.

(** A line of a text with CR LF line endings, cut at LF: it ends with CR,
    or it is the empty piece after the last LF. *)
Definition endsWithCR (l : jsstring) : bool :=
  match rev l with
  | c :: _ => c =? CR
  | [] => true
  end.

Lemma checkedMatch_CR (l : jsstring) :
  endsWithCR l = true -> checkedMatch l = None.
Proof.
  unfold endsWithCR, checkedMatch; intros H.
  destruct (matchTwoGroups _ _ l) as [[g1 g2]|] eqn:E; [|done].
  apply GitDiffParserMore.matchTwoGroups_inv in E
    as (-> & _ & Hne & _ & Hdot).
  destruct g2 as [|d g2 _] using rev_ind; [done|].
  rewrite !app_assoc, rev_app_distr in H; simpl in H.
  apply N.eqb_eq in H as ->.
  rewrite forallb_app in Hdot; by apply andb_prop in Hdot as [_ Hdot].
Qed.

Section WithLowerCase.

Variable toLowerCase : jsstring -> jsstring.

Lemma extractLoop_no_item (fuel : nat) (lines : list jsstring) (i : nat)
    (findings : list ExtractedFinding) :
  (length lines - i < fuel)%nat ->
  Forall (fun l => checkedMatch l = None) lines ->
  extractLoop toLowerCase fuel lines i findings = Done findings.
Proof.
  intros Hf Hall; revert i findings Hf.
  induction fuel as [|fuel IH]; intros i findings Hf; [lia|]; simpl.
  case_bool_decide as Hi; [|done].
  destruct (lookup_lt_is_Some_2 lines i Hi) as [l Hl]; rewrite Hl.
  rewrite (proj1 (List.Forall_forall _ _) Hall l)
    by (apply list_elem_of_In; by eapply list_elem_of_lookup_2).
  apply IH; lia.
Qed.

(** X12. A text with CR LF line endings has no checked item: the item
    pattern must reach the end of the line and its last group takes no
    carriage return, so no line opens an item and no finding is
    returned. *)
Theorem crlf_report_has_no_findings (content : jsstring)
    (Hcrlf : Forall (fun l => endsWithCR l = true) (split_newline content)) :
  Forall (fun l => checkedMatch l = None) (split_newline content)
  /\ extractCheckedFindings toLowerCase content = Done [].
Proof.
  assert (Forall (fun l => checkedMatch l = None) (split_newline content))
    as Hnone.
  { eapply List.Forall_impl; [|exact Hcrlf]. apply checkedMatch_CR. }
  split; [done|].
  unfold extractCheckedFindings; apply extractLoop_no_item; [lia|done].
Qed.

End WithLowerCase.

(** The report of the specification's example, with CR LF line endings. *)
Definition crlfReport : jsstring :=
  lit "- [x] **[HIGH]** Null Check" ++ [CR; LF] ++
  lit "- **File**: `a.ts`:12" ++ [CR; LF] ++
  lit "- **Issue**: missing check" ++ [CR; LF].

Lemma crlf_report_has_no_findings_witness :
  Forall (fun l => endsWithCR l = true) (split_newline crlfReport)
  /\ extractCheckedFindings asciiLowerCase crlfReport = Done [].
Proof.
  assert (Forall (fun l => endsWithCR l = true) (split_newline crlfReport))
    as H by (vm_compute; repeat constructor).
  exact (conj H (proj2 (crlf_report_has_no_findings asciiLowerCase
                          crlfReport H))).
Defined.

(** *** The findings and the checked lines *)

Lemma sublist_omap {A B : Type} (h : A -> option B) (l1 l2 : list A) :
  sublist l1 l2 -> sublist (omap h l1) (omap h l2).
Proof.
  induction 1 as [|x l1 l2 _ IH|x l1 l2 _ IH]; simpl; [done| |].
  - destruct (h x); [by constructor|done].
  - destruct (h x); [by constructor|done].
Qed.

Lemma sublist_map {A B : Type} (h : A -> B) (l1 l2 : list A) :
  sublist l1 l2 -> sublist (map h l1) (map h l2).
Proof. induction 1; simpl; by constructor. Qed.

Lemma omap_cons {A B : Type} (h : A -> option B) (x : A) (l : list A) :
  omap h (x :: l)
  = match h x with Some y => y :: omap h l | None => omap h l end.
Proof. done. Qed.

Lemma sublist_List_filter {A : Type} (f : A -> bool) (l : list A) :
  sublist (List.filter f l) l.
Proof.
  induction l as [|x l IH]; simpl; [done|].
  destruct (f x); by constructor.
Qed.

(** A finding has its fields on one line each. *)
Definition singleLine (s : jsstring) : bool := forallb isDot s.

(** The text fields of a finding as the patterns capture them: a category
    that is not empty, a backtick nowhere in the file but, at most, as its
    first character, a suggestion that is not empty when there is one, and
    no line terminator in any of them. *)
Definition wellFormed (f : ExtractedFinding) : bool :=
  truthy (category f) && singleLine (category f)
  && singleLine (file f) && negb (existsb (N.eqb 96) (tail (file f)))
  && singleLine (issue f)
  && match suggestion f with
     | Some g => truthy g && singleLine g
     | None => true
     end.

Lemma lazyUntil_inv (q : N) (acc s p after : jsstring) :
  lazyUntil q acc s = Some (p, after) ->
  exists pre,
    p = acc ++ pre /\ s = pre ++ q :: after
    /\ forallb isDot pre = true /\ existsb (N.eqb q) pre = false.
Proof.
  revert acc; induction s as [|c s IH]; intros acc; simpl; [done|].
  destruct (N.eqb_spec c q) as [->|Hc].
  - intros [= <- <-]; exists []; by rewrite app_nil_r.
  - destruct (isDot c) eqn:Hd; [|done].
    intros (pre & -> & -> & Hpre & Hq)%IH; exists (c :: pre); simpl.
    rewrite <- app_assoc, Hd, Hpre, Hq.
    by destruct (N.eqb_spec q c) as [->|].
Qed.

Lemma fileMatch_inv (l p : jsstring) (ln : option jsstring) :
  fileMatch l = Some (p, ln) ->
  singleLine p = true /\ existsb (N.eqb 96) (tail p) = false.
Proof.
  intros [s H]%search_Some; unfold fileAt in H.
  destruct (stripPrefix _ s) as [[|c rest]|]; try done.
  destruct (isDot c) eqn:Hc; [|done].
  destruct (lazyUntil 96 [c] rest) as [[p' after]|] eqn:E; [|done].
  injection H as <- _.
  apply lazyUntil_inv in E as (pre & -> & _ & Hpre & Hq).
  by simpl; rewrite Hc.
Qed.

Lemma labelAt_inv (label s g : jsstring) :
  labelAt label s = Some g -> truthy g = true /\ singleLine g = true.
Proof.
  intros H; split; [by eapply labelAt_truthy|].
  unfold labelAt in H; destruct (stripPrefix label s) as [r|]; [|done].
  destruct (takeWhile isDot r) eqn:E; [done|]. injection H as <-.
  rewrite <- E; apply GitDiffParserMore.takeWhile_dropWhile.
Qed.

Lemma captureFields_wellFormed (f : ExtractedFinding) (l : jsstring) :
  wellFormed f = true -> wellFormed (captureFields f l) = true.
Proof.
  unfold wellFormed, captureFields; intros H.
  repeat (apply andb_prop in H as [H ?]).
  destruct (fileMatch l) as [[p ln]|] eqn:Ef;
    [apply fileMatch_inv in Ef as [??]|];
    (destruct (issueMatch l) as [g|] eqn:Ei;
       [apply search_Some in Ei as [? [??]%labelAt_inv]|]);
    (destruct (suggestionMatch l) as [g'|] eqn:Es;
       [apply search_Some in Es as [? [??]%labelAt_inv]|]);
    simpl; repeat (apply andb_true_intro; split); try done;
    by apply negb_true_iff.
Qed.

Lemma detailLoop_wellFormed (fuel : nat) (lines : list jsstring) (i : nat)
    (f : ExtractedFinding) (r : nat * ExtractedFinding) :
  detailLoop fuel lines i f = Done r ->
  wellFormed f = true -> wellFormed r.2 = true.
Proof.
  revert i f; induction fuel as [|fuel IH]; intros i f; simpl; [done|].
  intros H Hf.
  case_bool_decide; [|by injection H as <-].
  destruct (lines !! i) as [l|]; [|done].
  destruct (stopsDetails l (lines !! S i)); [by injection H as <-|].
  pose proof (captureFields_wellFormed f l Hf) as Hc.
  destruct (includes (lit "- **Code**:") l); [|by eapply IH].
  destruct (match lines !! S i with
            | Some l0 => startsWith fence (trim l0)
            | None => false
            end); [|by eapply IH].
  destruct (fenceLoop fuel lines (S (S i)) []) as [[i1 cl]| |]; try done.
  eapply IH; [exact H|done].
Qed.

Section Findings.

Variable toLowerCase : jsstring -> jsstring.

(** What a checked line gives the finding it opens: the severity in lower
    case and the category. *)
Definition header (l : jsstring) : option (jsstring * jsstring) :=
  m ← checkedMatch l; Some (toLowerCase m.1, m.2).

Definition key (f : ExtractedFinding) : jsstring * jsstring :=
  (severity f, category f).

Lemma scannedItems_headers (fuel : nat) (lines : list jsstring) (i : nat) :
  (length lines - i < fuel)%nat ->
  sublist (map (fun it => key (result it))
             (scannedItems toLowerCase fuel lines i))
          (omap header (drop i lines)).
Proof.
  revert i; induction fuel as [|fuel IH]; intros i Hf; [lia|]; simpl.
  case_bool_decide as Hi; [|apply sublist_nil_l].
  destruct (lookup_lt_is_Some_2 lines i Hi) as [l Hl]; rewrite Hl.
  rewrite (drop_S _ _ _ Hl), omap_cons.
  destruct (checkedMatch l) as [m|] eqn:Em.
  2:{ replace (header l) with (@None (jsstring * jsstring))
        by (unfold header; by rewrite Em).
      apply IH; lia. }
  replace (header l) with (Some (toLowerCase m.1, m.2))
    by (unfold header; by rewrite Em).
  destruct (detailLoop_spec fuel lines (S i) (newFinding toLowerCase m))
    as (i' & f' & -> & Hle & Hs & Hc & _); [lia|].
  cbn [map result]; unfold key at 1; rewrite Hs, Hc; cbn [newFinding severity category].
  constructor. etrans; [apply IH; lia|].
  apply sublist_omap.
  replace i' with (S i + (i' - S i))%nat by lia.
  rewrite <- drop_drop; apply sublist_drop.
Qed.

Lemma scannedItems_wellFormed (fuel : nat) (lines : list jsstring) (i : nat) :
  Forall (fun it => wellFormed (result it) = true)
    (scannedItems toLowerCase fuel lines i).
Proof.
  revert i; induction fuel as [|fuel IH]; intros i; simpl; [constructor|].
  case_bool_decide as Hi; [|constructor].
  destruct (lines !! i) as [l|]; [|constructor].
  destruct (checkedMatch l) as [[sev cat]|] eqn:Em; [|apply IH].
  destruct (detailLoop fuel lines (S i) (newFinding toLowerCase (sev, cat)))
    as [[i' f']| |] eqn:E; try constructor; [|apply IH].
  apply (detailLoop_wellFormed _ _ _ _ _ E).
  apply GitDiffParserMore.matchTwoGroups_inv in Em as (_ & _ & Hne & _ & Hdot).
  unfold wellFormed, newFinding, singleLine; simpl; rewrite Hdot.
  by destruct cat.
Qed.

(** X13. The findings follow the checked lines: taken in order, the
    severity and category of the findings returned are those of a
    subsequence of the lines of the form [- [x] **[SEVERITY]** category],
    the severity in lower case.  So there are no more findings than such
    lines. *)
Theorem findings_follow_the_checked_lines (content : jsstring) :
  exists findings,
    extractCheckedFindings toLowerCase content = Done findings
    /\ sublist (map key findings) (omap header (split_newline content))
    /\ (length findings
        <= length (List.filter (fun l => bool_decide (is_Some (checkedMatch l)))
                     (split_newline content)))%nat.
Proof.
  unfold extractCheckedFindings; rewrite extractLoop_spec by lia; simpl.
  eexists; split; [done|].
  assert (sublist
            (map key (emitted (scannedItems toLowerCase
                                 (S (length (split_newline content)))
                                 (split_newline content) 0)))
            (omap header (split_newline content))) as Hsub.
  { assert (length (split_newline content) - 0
            < S (length (split_newline content)))%nat as Hfuel by lia.
    etrans; [|exact (scannedItems_headers _ _ 0 Hfuel)].
    unfold emitted; rewrite map_map.
    apply sublist_map, sublist_List_filter. }
  split; [done|].
  apply sublist_length in Hsub; rewrite length_map in Hsub.
  etrans; [exact Hsub|]. clear Hsub.
  induction (split_newline content) as [|l ls IH]; [done|].
  rewrite omap_cons; cbn [List.filter]; unfold header at 1.
  destruct (checkedMatch l); simpl; [lia|done].
Qed.

(** X14. The text fields of every finding returned are single lines: the
    file and the issue are not empty, nor is the category, nor the
    suggestion when there is one; none of them holds a line terminator;
    and the file holds no backtick after its first character. *)
Theorem findings_have_single_line_fields (content : jsstring) :
  exists findings,
    extractCheckedFindings toLowerCase content = Done findings
    /\ Forall (fun f => truthy (file f) = true /\ truthy (issue f) = true
                        /\ wellFormed f = true) findings.
Proof.
  unfold extractCheckedFindings; rewrite extractLoop_spec by lia; simpl.
  eexists; split; [done|].
  unfold emitted; apply Forall_fmap, List.Forall_forall.
  intros it [Hin Hreq]%List.filter_In.
  apply andb_prop in Hreq as [??]; repeat split; try done.
  pose proof (scannedItems_wellFormed (S (length (split_newline content)))
                (split_newline content) 0) as Hall.
  rewrite List.Forall_forall in Hall; by apply Hall.
Qed.

End Findings.

End ExtractMore.

(** ** More on [parseFindings] *)

Module BaseAgentMore.

Import BaseAgent.

Local Arguments lit : simpl never.

(** The characters other than [c]. *)
Definition isNot (c : N) : N -> bool := fun d => negb (d =? c).

Lemma dropWhile_head (f : N -> bool) (s r : jsstring) (c : N) :
  dropWhile f s = c :: r -> f c = false.
Proof.
  induction s as [|d s IH]; simpl; [done|].
  destruct (f d) eqn:E; [done|]. by intros [= <- _].
Qed.

Lemma dropWhile_stops (f : N -> bool) (pre rest : jsstring) (c : N) :
  f c = false -> exists pre', dropWhile f (pre ++ c :: rest) = pre' ++ c :: rest.
Proof.
  intros Hc; induction pre as [|d pre [pre' IH]]; simpl.
  - exists []; by rewrite Hc.
  - destruct (f d); [by exists pre'|by exists (d :: pre)].
Qed.

(** X15. The pattern of [parseFindings] takes the response from its first
    opening bracket to its last closing bracket: what is matched starts
    with [[] and ends with []], no [[] comes before it and no []] after
    it.  Nothing is matched exactly when no closing bracket follows an
    opening one, and then there are no findings. *)
Theorem jsonMatch_first_to_last (response : jsstring) :
  match jsonMatch response with
  | Some text =>
      exists pre body post,
        response = pre ++ text ++ post
        /\ text = 91 :: body ++ [93]
        /\ forallb (isNot 91) pre = true
        /\ forallb (isNot 93) post = true
  | None =>
      (forall pre body post, response <> pre ++ 91 :: body ++ 93 :: post)
      /\ parseFindings response = []
  end.
Proof.
  unfold parseFindings, jsonMatch; fold (isNot 91) (isNot 93).
  destruct (GitDiffParserMore.takeWhile_dropWhile (isNot 91) response)
    as [Hsplit Hpre].
  destruct (dropWhile (isNot 91) response) as [|c fromOpen] eqn:Eo.
  { split; [|done]. intros pre body post ->.
    destruct (dropWhile_stops (isNot 91) pre (body ++ 93 :: post) 91 eq_refl)
      as [pre' H].
    rewrite H in Eo; by destruct pre'. }
  assert (c = 91) as ->.
  { apply dropWhile_head in Eo. unfold isNot in Eo.
    apply negb_false_iff in Eo; by apply N.eqb_eq in Eo. }
  destruct (GitDiffParserMore.takeWhile_dropWhile (isNot 93)
              (rev (91 :: fromOpen))) as [Hsplit' Hpost].
  destruct (dropWhile (isNot 93) (rev (91 :: fromOpen)))
    as [|d upToClose] eqn:Ec.
  { split; [|done]. intros pre body post ->.
    destruct (dropWhile_stops (isNot 91) pre (body ++ 93 :: post) 91 eq_refl)
      as [pre' H].
    rewrite H in Eo.
    assert (exists stem, 91 :: fromOpen = stem ++ 93 :: post) as [stem Hs].
    { exists (pre' ++ 91 :: body). rewrite <- Eo, <- !app_assoc; done. }
    rewrite Hs, rev_app_distr in Ec; simpl in Ec; rewrite <- app_assoc in Ec.
    destruct (dropWhile_stops (isNot 93) (rev post) (rev stem) 93 eq_refl)
      as [pre'' H'].
    simpl in Ec; rewrite H' in Ec; by destruct pre''. }
  assert (d = 93) as ->.
  { apply dropWhile_head in Ec. unfold isNot in Ec.
    apply negb_false_iff in Ec; by apply N.eqb_eq in Ec. }
  apply (f_equal (@rev N)) in Hsplit'.
  rewrite rev_app_distr, rev_involutive in Hsplit'.
  set (post := rev (takeWhile (isNot 93) (rev (91 :: fromOpen)))) in *.
  assert (forallb (isNot 93) post = true) as Hpost'.
  { unfold post; rewrite forallb_forall in Hpost |- *.
    intros x Hx; apply Hpost; by apply in_rev. }
  simpl in Hsplit'.
  destruct (rev upToClose) as [|e body] eqn:Eb; simpl in Hsplit'.
  { by injection Hsplit'. }
  injection Hsplit' as -> Hfrom.
  exists (takeWhile (isNot 91) response), body, post.
  simpl; rewrite Eb; simpl.
  repeat split; try done.
  rewrite <- Hsplit at 1; f_equal. simpl. by f_equal.
Qed.

End BaseAgentMore.

(** ** [groupBySeverity] of [src/reporters/markdown-reporter.ts] *)

Module MarkdownReporter.

Import Agents.

(** The object [grouped]: its own properties are the four severities, each
    an array; no property is ever added. *)
Record Grouped := {
  g_critical : list AgentFinding;
  g_high : list AgentFinding;
  g_medium : list AgentFinding;
  g_low : list AgentFinding;
}.

Section WithPrototype.

(** The names of the properties an object literal inherits from
    [Object.prototype], such as [constructor] and [toString]: their values
    are truthy and have no [push]. *)
Variable inherited : jsstring -> bool.

(** The body of the loop: [if (grouped[finding.severity])
    grouped[finding.severity].push(finding)].  An own property is an
    array, which is truthy; an inherited one is truthy and calling its
    [push] is a [TypeError], here [None]; any other name reads
    [undefined]. *)
Definition groupStep (grouped : Grouped) (finding : AgentFinding)
  : option Grouped :=
  let s := severity finding in
  if bool_decide (s = lit "critical") then
    Some {| g_critical := g_critical grouped ++ [finding];
            g_high := g_high grouped; g_medium := g_medium grouped;
            g_low := g_low grouped |}
  else if bool_decide (s = lit "high") then
    Some {| g_critical := g_critical grouped;
            g_high := g_high grouped ++ [finding];
            g_medium := g_medium grouped; g_low := g_low grouped |}
  else if bool_decide (s = lit "medium") then
    Some {| g_critical := g_critical grouped; g_high := g_high grouped;
            g_medium := g_medium grouped ++ [finding];
            g_low := g_low grouped |}
  else if bool_decide (s = lit "low") then
    Some {| g_critical := g_critical grouped; g_high := g_high grouped;
            g_medium := g_medium grouped;
            g_low := g_low grouped ++ [finding] |}
  else if inherited s then None
  else Some grouped.

(** [groupBySeverity]: [None] when the loop throws. *)
Definition groupBySeverity (findings : list AgentFinding) : option Grouped :=
  fold_left (fun acc finding => grouped ← acc; groupStep grouped finding)
    findings
    (Some {| g_critical := []; g_high := []; g_medium := []; g_low := [] |}).

End WithPrototype.

End MarkdownReporter.

Module MarkdownReporterProofs.

Import Agents Pipeline PipelineProofs MarkdownReporter.

Local Arguments lit : simpl never.

(** The findings of severity [sev], in order. *)
Definition ofSeverity (sev : jsstring) (l : list AgentFinding)
  : list AgentFinding :=
  List.filter (fun f => bool_decide (severity f = sev)) l.

Section WithPrototype.

Variable inherited : jsstring -> bool.

(** A finding on which the loop throws. *)
Definition breaksGrouping (f : AgentFinding) : bool :=
  negb (knownSeverity f) && inherited (severity f).

Lemma fold_groupStep_None (l : list AgentFinding) :
  fold_left (fun acc finding => grouped ← acc; groupStep inherited grouped finding)
    l None = None.
Proof. by induction l. Qed.

Lemma ofSeverity_other (sev : jsstring) (f : AgentFinding)
    (l : list AgentFinding) :
  severity f <> sev -> ofSeverity sev (f :: l) = ofSeverity sev l.
Proof. intros H; unfold ofSeverity; simpl; by rewrite bool_decide_false. Qed.

Lemma ofSeverity_same (f : AgentFinding) (l : list AgentFinding) :
  ofSeverity (severity f) (f :: l) = f :: ofSeverity (severity f) l.
Proof. unfold ofSeverity; simpl; by rewrite bool_decide_true. Qed.

Lemma fold_groupStep (l : list AgentFinding) (grouped : Grouped) :
  fold_left (fun acc finding => g ← acc; groupStep inherited g finding)
    l (Some grouped)
  = if existsb breaksGrouping l then None
    else Some {| g_critical := g_critical grouped ++ ofSeverity (lit "critical") l;
                 g_high := g_high grouped ++ ofSeverity (lit "high") l;
                 g_medium := g_medium grouped ++ ofSeverity (lit "medium") l;
                 g_low := g_low grouped ++ ofSeverity (lit "low") l |}.
Proof.
  revert grouped; induction l as [|f l IH]; intros grouped.
  { destruct grouped; simpl; by rewrite !app_nil_r. }
  cbn [fold_left existsb mbind option_bind].
  unfold groupStep, breaksGrouping at 1, knownSeverity.
  repeat case_bool_decide;
    try (exfalso;
         match goal with
         | H : severity f = _, H' : severity f = _ |- _ =>
             rewrite H in H'; vm_compute in H'; discriminate
         end);
    cbn [negb orb andb];
    try (destruct (inherited (severity f)); cbn [orb];
         [by rewrite fold_groupStep_None|]);
    rewrite IH;
    repeat match goal with
           | H : severity f = _ |- _ =>
               rewrite <- H, ofSeverity_same; rewrite H; clear H
           end;
    rewrite !ofSeverity_other by done;
    destruct (existsb breaksGrouping l); try done;
    cbn [g_critical g_high g_medium g_low]; by rewrite <- ?app_assoc.
Qed.

(** X16. [groupBySeverity] throws exactly when some finding has a severity
    that is none of the four and names an inherited property; otherwise
    each of the four groups holds the findings of that severity, in
    order, and a finding of any other severity is in no group. *)
Theorem groupBySeverity_groups (findings : list AgentFinding) :
  groupBySeverity inherited findings
  = if existsb breaksGrouping findings then None
    else Some {| g_critical := ofSeverity (lit "critical") findings;
                 g_high := ofSeverity (lit "high") findings;
                 g_medium := ofSeverity (lit "medium") findings;
                 g_low := ofSeverity (lit "low") findings |}.
Proof. unfold groupBySeverity; by rewrite fold_groupStep. Qed.

Lemma groupBySeverity_Some (findings : list AgentFinding) (g : Grouped) :
  groupBySeverity inherited findings = Some g ->
  g_critical g = ofSeverity (lit "critical") findings
  /\ g_high g = ofSeverity (lit "high") findings
  /\ g_medium g = ofSeverity (lit "medium") findings
  /\ g_low g = ofSeverity (lit "low") findings.
Proof.
  unfold groupBySeverity; rewrite fold_groupStep.
  destruct (existsb breaksGrouping findings); [done|]. by intros [= <-].
Qed.

(** X17. When the three lists of a report can be grouped, the groups of
    each severity hold, together, as many findings as the summary of the
    report counts for that severity. *)
Theorem groups_agree_with_the_summary
    (results : ByAgent (option AgentResult)) (executionTime now : Z)
    (g1 g2 g3 : Grouped) :
  let rep := aggregateReport results executionTime now in
  groupBySeverity inherited (r_codeReview rep) = Some g1 ->
  groupBySeverity inherited (r_security rep) = Some g2 ->
  groupBySeverity inherited (r_performance rep) = Some g3 ->
  critical (summary rep)
  = N.of_nat (length (g_critical g1 ++ g_critical g2 ++ g_critical g3))
  /\ high (summary rep)
     = N.of_nat (length (g_high g1 ++ g_high g2 ++ g_high g3))
  /\ medium (summary rep)
     = N.of_nat (length (g_medium g1 ++ g_medium g2 ++ g_medium g3))
  /\ low (summary rep)
     = N.of_nat (length (g_low g1 ++ g_low g2 ++ g_low g3)).
Proof.
  intros rep [-> [-> [-> ->]]]%groupBySeverity_Some
    [-> [-> [-> ->]]]%groupBySeverity_Some
    [-> [-> [-> ->]]]%groupBySeverity_Some.
  unfold rep, aggregateReport, ofSeverity;
    cbn [summary critical high medium low r_codeReview r_security
         r_performance].
  unfold countSeverity; by rewrite !List.filter_app.
Qed.

End WithPrototype.

(** Among the properties every object inherits. *)
Definition someInherited (name : jsstring) : bool :=
  bool_decide (name = lit "constructor") || bool_decide (name = lit "toString").

(** A finding whose severity is [constructor] makes the grouping throw;
    one of severity [blocker] is left out of every group. *)
Example inherited_severity_breaks_the_grouping :
  groupBySeverity someInherited
    [styleFinding;
     {| type := lit "error"; severity := lit "constructor";
        category := lit "c"; message := lit "m"; file := lit "a.ts";
        line := None; suggestion := None; code := None |}] = None
  /\ groupBySeverity someInherited
       [styleFinding;
        {| type := lit "error"; severity := lit "blocker";
           category := lit "c"; message := lit "m"; file := lit "a.ts";
           line := None; suggestion := None; code := None |}]
     = Some {| g_critical := []; g_high := []; g_medium := [];
               g_low := [styleFinding] |}.
Proof. by vm_compute. Qed.

Definition twoFindings : ByAgent (option AgentResult) :=
  {| codeReview := Some {| agentName := lit "Code Review";
                           findings := [styleFinding];
                           executionTime := 10; tokenUsage := None |};
     security := None;
     performance := Some {| agentName := lit "Performance";
                            findings := [loopFinding];
                            executionTime := 10; tokenUsage := None |} |}.

Definition noGroup : Grouped :=
  {| g_critical := []; g_high := []; g_medium := []; g_low := [] |}.

Lemma groups_agree_with_the_summary_witness :
  let rep := aggregateReport twoFindings 30 0 in
  let g1 := {| g_critical := []; g_high := []; g_medium := [];
               g_low := [styleFinding] |} in
  let g3 := {| g_critical := []; g_high := [loopFinding]; g_medium := [];
               g_low := [] |} in
  groupBySeverity someInherited (r_codeReview rep) = Some g1
  /\ groupBySeverity someInherited (r_security rep) = Some noGroup
  /\ groupBySeverity someInherited (r_performance rep) = Some g3
  /\ critical (summary rep) = 0 /\ high (summary rep) = 1
  /\ medium (summary rep) = 0 /\ low (summary rep) = 1.
Proof.
  intros rep g1 g3.
  assert (groupBySeverity someInherited (r_codeReview rep) = Some g1) as E1
    by (by vm_compute).
  assert (groupBySeverity someInherited (r_security rep) = Some noGroup) as E2
    by (by vm_compute).
  assert (groupBySeverity someInherited (r_performance rep) = Some g3) as E3
    by (by vm_compute).
  exact (conj E1 (conj E2 (conj E3
           (groups_agree_with_the_summary someInherited twoFindings 30%Z 0%Z
              g1 noGroup g3 E1 E2 E3)))).
Defined.

End MarkdownReporterProofs.

(** ** [runStaticAnalysis] of [src/agents/security-agent.ts] *)

Module SecurityAgent.

Import GitDiffParser Agents Pipeline DiffConsumers.

(** What the code reads of a message of ESLint; a [ruleId] may be [null]. *)
Record LintMessage := {
  ruleId : option jsstring;
  lm_severity : N;
  lm_message : jsstring;
  lm_line : Z;
}.

Record LintResult := {
  messages : list LintMessage;
}.

Section WithESLint.

(** The linter: [this.eslint.lintText(content, { filePath })] returns
    results or throws, and may change the state of the world. *)
Variable World : Type.
Variable lintText : jsstring -> jsstring -> World
                    -> Res (list LintResult) * World.

(** The object pushed for a message. *)
Definition toFinding (file : FileDiff) (m : LintMessage) : AgentFinding :=
  {| type := if lm_severity m =? 2 then lit "error" else lit "warning";
     severity := if lm_severity m =? 2 then lit "high" else lit "medium";
     category := lit "Static Analysis";
     message := match ruleId m with Some r => r | None => lit "null" end
                ++ lit ": " ++ lm_message m;
     Agents.file := path file;
     line := Some (lm_line m);
     suggestion := Some (lit "Review ESLint security rule documentation");
     code := None |}.

(** One iteration of [for (const file of context.diff.files)]. *)
Definition lintStep (acc : list AgentFinding * World) (file : FileDiff)
  : list AgentFinding * World :=
  let '(findings, w) := acc in
  match status file with
  | deleted => acc
  | _ =>
      let content := reconstructFileContent file in
      match lintText content (path file) w with
      | (Returned results, w') =>
          (findings
             ++ concat (map (fun r => map (toFinding file) (messages r))
                          results),
           w')
      | (Raised _, w') => (findings, w')
      end
  end.

(** [runStaticAnalysis] *)
Definition runStaticAnalysis (context : AgentContext) (w : World)
  : list AgentFinding * World :=
  fold_left lintStep (files (diff context)) ([], w).

End WithESLint.

End SecurityAgent.

Module SecurityAgentProofs.

Import GitDiffParser GitDiffParserProofs Agents Pipeline DiffConsumers
  SecurityAgent.

Local Arguments lit : simpl never.

Section WithESLint.

Variable World : Type.
Variable lintText : jsstring -> jsstring -> World
                    -> Res (list LintResult) * World.

(** A finding built from a message of the linter on one of [fs]. *)
Definition staticOn (fs : list FileDiff) (f : AgentFinding) : Prop :=
  category f = lit "Static Analysis"
  /\ (type f = lit "error" /\ severity f = lit "high"
      \/ type f = lit "warning" /\ severity f = lit "medium")
  /\ exists fd, In fd fs /\ status fd <> deleted /\ file f = path fd.

Lemma staticOn_mono (fs fs' : list FileDiff) (f : AgentFinding) :
  (forall fd, In fd fs -> In fd fs') -> staticOn fs f -> staticOn fs' f.
Proof.
  intros Hsub (Hc & Ht & fd & Hin & Hs & Hf).
  repeat split; try done. exists fd; auto.
Qed.

Lemma toFinding_staticOn (fd : FileDiff) (m : LintMessage) :
  status fd <> deleted -> staticOn [fd] (toFinding fd m).
Proof.
  intros Hs; unfold staticOn, toFinding; simpl.
  split; [done|]; split.
  - destruct (lm_severity m =? 2); auto.
  - exists fd; repeat split; [by left|done].
Qed.

Lemma lintStep_fold (fs : list FileDiff) (acc : list AgentFinding) (w : World) :
  exists more,
    (fold_left (lintStep World lintText) fs (acc, w)).1 = acc ++ more
    /\ Forall (staticOn fs) more.
Proof.
  revert acc w; induction fs as [|fd fs IH]; intros acc w; simpl.
  { exists []; by rewrite app_nil_r. }
  assert (forall acc' w',
             (exists mine, acc' = acc ++ mine /\ Forall (staticOn [fd]) mine) ->
             exists more,
               (fold_left (lintStep World lintText) fs (acc', w')).1
               = acc ++ more
               /\ Forall (staticOn (fd :: fs)) more) as Hgo.
  { intros acc' w' (mine & -> & Hmine).
    destruct (IH (acc ++ mine) w') as (more & -> & Hmore).
    exists (mine ++ more); rewrite <- app_assoc; split; [done|].
    apply Forall_app; split.
    - eapply List.Forall_impl; [|exact Hmine].
      intros f; apply staticOn_mono; intros x [->|[]]; by left.
    - eapply List.Forall_impl; [|exact Hmore].
      intros f; apply staticOn_mono; intros x Hx; by right. }
  assert (status fd <> deleted ->
          exists more,
            (fold_left (lintStep World lintText) fs
               (match lintText (reconstructFileContent fd) (path fd) w with
                | (Returned results, w') =>
                    (acc ++ concat (map (fun r => map (toFinding fd) (messages r))
                                      results), w')
                | (Raised _, w') => (acc, w')
                end)).1 = acc ++ more
            /\ Forall (staticOn (fd :: fs)) more) as Hlint.
  { intros Hs.
    destruct (lintText (reconstructFileContent fd) (path fd) w)
      as [[results|e] w'].
    - apply Hgo; eexists; split; [done|].
      apply Forall_concat, Forall_fmap, Forall_true; intros r.
      apply Forall_fmap, Forall_true; intros m.
      by apply toFinding_staticOn.
    - apply Hgo; exists []; by rewrite app_nil_r. }
  destruct (status fd) eqn:Es; try (by apply Hlint).
  apply Hgo; exists []; by rewrite app_nil_r.
Qed.

Lemma processDiff_supported (diffContent : jsstring)
    (summary : option DiffResult) (fd : FileDiff) :
  In fd (files (processDiff diffContent summary)) ->
  isSupportedFile (path fd) = true.
Proof.
  assert (files (processDiff diffContent summary)
          = retained (fileBlocks diffContent)) as ->.
  { unfold processDiff; simpl; fold (fileBlocks diffContent).
    by destruct (fileStep_fold (fileBlocks diffContent)
                   {| t_files := []; t_additions := 0; t_deletions := 0 |})
      as (-> & _). }
  unfold retained; by intros [_ ?]%List.filter_In.
Qed.

(** X18. Every finding of [runStaticAnalysis] has category
    [Static Analysis], is an [error] of severity [high] or a [warning] of
    severity [medium], and is on a file of the diff that is not deleted,
    whatever the linter answers and whether it throws or not; so, on a
    diff that [processDiff] produced, every such finding is on a file with
    a supported extension. *)
Theorem static_findings_are_on_files_of_the_diff (context : AgentContext)
    (w : World) :
  Forall (staticOn (files (diff context)))
    (runStaticAnalysis World lintText context w).1
  /\ forall diffContent summary,
       diff context = processDiff diffContent summary ->
       Forall (fun f => isSupportedFile (file f) = true)
         (runStaticAnalysis World lintText context w).1.
Proof.
  unfold runStaticAnalysis.
  destruct (lintStep_fold (files (diff context)) [] w) as (more & -> & Hall).
  split; [done|]; intros diffContent summary Hd; simpl.
  eapply List.Forall_impl; [|exact Hall].
  intros f (_ & _ & fd & Hin & _ & ->).
  rewrite Hd in Hin; by eapply processDiff_supported.
Qed.

End WithESLint.

End SecurityAgentProofs.
